(** * Transfer-matrix method for a one-dimensional photonic crystal

    Shallow embedding of [TMM_1dim.py] (class [PhotonicCrystal1d]) and the
    properties of its cascade stated by the specification.

    Number model.  Python [int] is [Z].  [float] / [numpy.float64] is the
    real line [R] and [numpy.complex128] is a pair of reals: the arithmetic
    is the exact one, rounding, overflow and nan are not modelled.  A
    [float64] array of shape 2x2 is [array2x2 R], a [complex128] one is
    [array2x2 C].  The two dictionaries of the class are finite maps keyed
    by strings.

    Division.  [Eps0] and [Mu0] are Python floats, so the quotient under
    each [np.sqrt] of the constructor and of [calculateTransferMatrices] is
    a Python float division: it raises [ZeroDivisionError] on a zero
    denominator ([truediv]).  The other quotients have numpy operands and
    raise nothing; they are the total division of [R]. *)

From stdpp Require Import gmap strings.
From Stdlib Require Import ZArith Reals Lra Lia.

(** ** Complex scalars ([numpy.complex128]) *)

Module Cplx.
Local Open Scope R_scope.

Record C : Type := mkC { re : R; im : R }.

(** A real operand meeting a complex one is cast with a zero imaginary part. *)
Definition RtoC (x : R) : C := mkC x 0.

(** The literal [1j]. *)
Definition Ci : C := mkC 0 1.

Definition Cadd (a b : C) : C := mkC (re a + re b) (im a + im b).
Definition Csub (a b : C) : C := mkC (re a - re b) (im a - im b).
Definition Cneg (a : C) : C := mkC (- re a) (- im a).
Definition Cmul (a b : C) : C :=
  mkC (re a * re b - im a * im b) (re a * im b + im a * re b).
Definition Cdiv (a b : C) : C :=
  mkC ((re a * re b + im a * im b) / (re b * re b + im b * im b))
      ((im a * re b - re a * im b) / (re b * re b + im b * im b)).

(** [numpy.exp] on a complex argument. *)
Definition Cexp (a : C) : C := mkC (exp (re a) * cos (im a)) (exp (re a) * sin (im a)).

(** [abs] on a complex argument. *)
Definition Cabs (a : C) : R := sqrt (re a * re a + im a * im a).

(** Complex conjugation; the source never calls it, the specification
    speaks of it. *)
Definition Cconj (a : C) : C := mkC (re a) (- im a).

End Cplx.

(** ** 2x2 arrays ([numpy.ndarray] of shape (2, 2)) *)

Module Arr.
Import Cplx.

Record array2x2 (A : Type) : Type :=
  mk2x2 { a00 : A; a01 : A; a10 : A; a11 : A }.
Arguments mk2x2 {A} _ _ _ _.
Arguments a00 {A} _.
Arguments a01 {A} _.
Arguments a10 {A} _.
Arguments a11 {A} _.

(** [c * numpy.array(...)] with a real scalar [c] and a real array. *)
Definition scale (c : R) (a : array2x2 R) : array2x2 R :=
  mk2x2 (c * a00 a)%R (c * a01 a)%R (c * a10 a)%R (c * a11 a)%R.

(** The cast float64 -> complex128 that [@] applies to a real operand when
    the other operand is complex. *)
Definition astype_complex (a : array2x2 R) : array2x2 C :=
  mk2x2 (RtoC (a00 a)) (RtoC (a01 a)) (RtoC (a10 a)) (RtoC (a11 a)).

(** The operator [@] on two complex 2x2 arrays. *)
Definition matmul (p q : array2x2 C) : array2x2 C :=
  mk2x2 (Cadd (Cmul (a00 p) (a00 q)) (Cmul (a01 p) (a10 q)))
        (Cadd (Cmul (a00 p) (a01 q)) (Cmul (a01 p) (a11 q)))
        (Cadd (Cmul (a10 p) (a00 q)) (Cmul (a11 p) (a10 q)))
        (Cadd (Cmul (a10 p) (a01 q)) (Cmul (a11 p) (a11 q))).

End Arr.

(** ** Exceptions and results of a method call *)

Inductive exn : Type :=
| ValueError (msg : string)
| AssertionError
| KeyError (key : string)
| TypeError
| ZeroDivisionError.

Inductive outcome (A : Type) : Type :=
| Ret (a : A)
| Raise (e : exn).
Arguments Ret {A} _.
Arguments Raise {A} _.

Definition bind {A B : Type} (c : outcome A) (k : A -> outcome B) : outcome B :=
  match c with
  | Ret a => k a
  | Raise e => Raise e
  end.

Notation "'let!' x := c 'in' k" := (bind c (fun x => k))
  (at level 10, x name, c at level 100, k at level 200).

(** [x / y] on Python floats.  In the exact number model the denominator
    is zero only for a zero operand; a product that underflows to 0.0, or
    an int too large for a float, is outside the model. *)
Definition truediv (x y : R) : outcome R :=
  if Req_dec_T y 0 then Raise ZeroDivisionError else Ret (x / y)%R.

(** [d[key]] on a dictionary: [KeyError] when the key is absent. *)
Definition getitem {V : Type} (d : gmap string V) (key : string) : outcome V :=
  match d !! key with
  | Some v => Ret v
  | None => Raise (KeyError key)
  end.

(** ** The class [PhotonicCrystal1d] *)

Module PhotonicCrystal1d.
Import Cplx Arr.

Definition Eps0 : R := 8.854e-12%R.
Definition Mu0 : R := (4 * PI * 1e-7)%R.

Record model : Type := mkModel {
  N : Z;
  d1 : R;
  d2 : R;
  epsr1 : R;
  epsr2 : R;
  mur1 : R;
  mur2 : R;
  Z1 : R;
  Z2 : R;
  last : option Z;
  periods : option Z;
  transferMatrices : gmap string (array2x2 R);
  propagationMatrices : gmap string (array2x2 C);
  envEpsr : option R;
  envMur : option R;
  omega : option R
}.

(** Constructor.  [mur1] and [mur2] default to 1 in the source.  No object
    is returned when one of the two quotients raises. *)
Definition __init__ (N : Z) (d1 d2 epsr1 epsr2 mur1 mur2 : R) : outcome model :=
  let! q1 := truediv (Mu0 * mur1) (Eps0 * epsr1) in
  let! q2 := truediv (Mu0 * mur2) (Eps0 * epsr2) in
  Ret {| N := N;
         d1 := d1;
         d2 := d2;
         epsr1 := epsr1;
         epsr2 := epsr2;
         mur1 := mur1;
         mur2 := mur2;
         Z1 := sqrt q1;
         Z2 := sqrt q2;
         last := None;
         periods := if (N mod 2 =? 0)%Z then Some (N / 2)%Z else None;
         transferMatrices := ∅;
         propagationMatrices := ∅;
         envEpsr := None;
         envMur := None;
         omega := None |}.

(** Attribute assignments [self.f = v] and item assignments [self.f[k] = v]. *)
Definition set_envEpsr (v : option R) (self : model) : model :=
  mkModel (N self) (d1 self) (d2 self) (epsr1 self) (epsr2 self) (mur1 self)
    (mur2 self) (Z1 self) (Z2 self) (last self) (periods self)
    (transferMatrices self) (propagationMatrices self) v (envMur self) (omega self).

Definition set_envMur (v : option R) (self : model) : model :=
  mkModel (N self) (d1 self) (d2 self) (epsr1 self) (epsr2 self) (mur1 self)
    (mur2 self) (Z1 self) (Z2 self) (last self) (periods self)
    (transferMatrices self) (propagationMatrices self) (envEpsr self) v (omega self).

Definition set_omega (v : option R) (self : model) : model :=
  mkModel (N self) (d1 self) (d2 self) (epsr1 self) (epsr2 self) (mur1 self)
    (mur2 self) (Z1 self) (Z2 self) (last self) (periods self)
    (transferMatrices self) (propagationMatrices self) (envEpsr self) (envMur self) v.

Definition set_last (v : option Z) (self : model) : model :=
  mkModel (N self) (d1 self) (d2 self) (epsr1 self) (epsr2 self) (mur1 self)
    (mur2 self) (Z1 self) (Z2 self) v (periods self)
    (transferMatrices self) (propagationMatrices self) (envEpsr self) (envMur self)
    (omega self).

Definition setitem_transferMatrices (key : string) (mat : array2x2 R) (self : model) : model :=
  mkModel (N self) (d1 self) (d2 self) (epsr1 self) (epsr2 self) (mur1 self)
    (mur2 self) (Z1 self) (Z2 self) (last self) (periods self)
    (<[key := mat]> (transferMatrices self)) (propagationMatrices self)
    (envEpsr self) (envMur self) (omega self).

Definition setitem_propagationMatrices (key : string) (mat : array2x2 C) (self : model) : model :=
  mkModel (N self) (d1 self) (d2 self) (epsr1 self) (epsr2 self) (mur1 self)
    (mur2 self) (Z1 self) (Z2 self) (last self) (periods self)
    (transferMatrices self) (<[key := mat]> (propagationMatrices self))
    (envEpsr self) (envMur self) (omega self).

(** Lines 53 to 74 of [calculateTransferMatrices]: the four entries and
    [last], once [envZ] is known. *)
Definition buildTransferMatrices (envZ : R) (self : model) : model :=
  let delta := (Z1 self / envZ)%R in
  let mat := scale 0.5 (mk2x2 (1 + delta) (1 - delta) (1 - delta) (1 + delta))%R in
  let self := setitem_transferMatrices "env2one" mat self in
  let delta := (Z2 self / Z1 self)%R in
  let mat := scale 0.5 (mk2x2 (1 + delta) (1 - delta) (1 - delta) (1 + delta))%R in
  let self := setitem_transferMatrices "one2two" mat self in
  let delta := (Z1 self / Z2 self)%R in
  let mat := scale 0.5 (mk2x2 (1 + delta) (1 - delta) (1 - delta) (1 + delta))%R in
  let self := setitem_transferMatrices "two2one" mat self in
  if (N self mod 2 =? 0)%Z then
    let self := set_last (Some 2%Z) self in
    let delta := (envZ / Z2 self)%R in
    let mat := scale 0.5 (mk2x2 (1 + delta) (1 - delta) (1 - delta) (1 + delta))%R in
    setitem_transferMatrices "last2env" mat self
  else
    let self := set_last (Some 1%Z) self in
    let delta := (envZ / Z1 self)%R in
    let mat := scale 0.5 (mk2x2 (1 + delta) (1 - delta) (1 - delta) (1 + delta))%R in
    setitem_transferMatrices "last2env" mat self.

(** [calculateTransferMatrices(self, envEpsr, envMur=1)]: the object as the
    call leaves it, also when the quotient raises after the two
    assignments. *)
Definition calculateTransferMatrices (envEpsr envMur : R) (self : model)
  : outcome unit * model :=
  let self := set_envEpsr (Some envEpsr) self in
  let self := set_envMur (Some envMur) self in
  match truediv (Mu0 * envMur) (Eps0 * envEpsr) with
  | Raise e => (Raise e, self)
  | Ret q =>
      let envZ := sqrt q in
      (Ret tt, buildTransferMatrices envZ self)
  end.

(** [calculatePropagationMatrices(self, omega)] *)
Definition calculatePropagationMatrices (omega : R) (self : model) : model :=
  let self := set_omega (Some omega) self in
  let k1 := (omega * sqrt (Eps0 * Mu0 * epsr1 self * mur1 self))%R in
  let k2 := (omega * sqrt (Eps0 * Mu0 * epsr2 self * mur2 self))%R in
  let self :=
    setitem_propagationMatrices "one"
      (mk2x2 (Cexp (Cmul (Cmul Ci (RtoC k1)) (RtoC (d1 self)))) (RtoC 0)
             (RtoC 0) (Cexp (Cmul (Cmul (Cneg Ci) (RtoC k1)) (RtoC (d1 self))))) self in
  setitem_propagationMatrices "two"
    (mk2x2 (Cexp (Cmul (Cmul Ci (RtoC k2)) (RtoC (d2 self)))) (RtoC 0)
           (RtoC 0) (Cexp (Cmul (Cmul (Cneg Ci) (RtoC k2)) (RtoC (d2 self))))) self.

(** What [simulate_rt] returns: [(r, t)] complex, or [(R, T)] real. *)
Inductive result : Type :=
| Amplitudes (r t : C)
| Powers (R_ T_ : R).

(** [self.last - 1]: a [TypeError] while [last] is still [None]. *)
Definition sub_last (l : option Z) (k : Z) : outcome Z :=
  match l with
  | Some v => Ret (v - k)%Z
  | None => Raise TypeError
  end.

(** The body of [for layer in range(self.N-1)], run [n] times. *)
Fixpoint for_layers (n : nat) (self : model) (Q : array2x2 C) (flag : Z)
  : outcome (array2x2 C * Z) :=
  match n with
  | O => Ret (Q, flag)
  | S n' =>
      if (flag =? 0)%Z then
        let! P := getitem (propagationMatrices self) "one" in
        let Q := matmul Q P in
        let! M := getitem (transferMatrices self) "two2one" in
        let Q := matmul Q (astype_complex M) in
        for_layers n' self Q ((flag + 1) mod 2)%Z
      else
        let! P := getitem (propagationMatrices self) "two" in
        let Q := matmul Q P in
        let! M := getitem (transferMatrices self) "one2two" in
        let Q := matmul Q (astype_complex M) in
        for_layers n' self Q ((flag + 1) mod 2)%Z
  end.

Definition is_None {A : Type} (o : option A) : bool :=
  match o with None => true | Some _ => false end.

(** [simulate_rt(self, RT=False)].  The cascade [Q] starts as the real array
    stored under "last2env"; its first use is always a product with a complex
    propagation array, which casts it. *)
Definition simulate_rt (RT : bool) (self : model) : outcome result :=
  if is_None (envEpsr self) || is_None (omega self) then
    Raise (ValueError "Params not initialized!")
  else
    let! Q := getitem (transferMatrices self) "last2env" in
    let Q := astype_complex Q in
    let! flag := sub_last (last self) 1 in
    let! Qf := for_layers (Z.to_nat (N self - 1)) self Q flag in
    let Q := fst Qf in
    let flag := snd Qf in
    if (flag =? 0)%Z then
      let! P := getitem (propagationMatrices self) "one" in
      let Q := matmul Q P in
      let! M := getitem (transferMatrices self) "env2one" in
      let Q := matmul Q (astype_complex M) in
      let r := Cdiv (Cneg (a10 Q)) (a11 Q) in
      let t := Csub (a00 Q) (Cdiv (Cmul (a01 Q) (a10 Q)) (a11 Q)) in
      if RT then
        let R_ := (Cabs r ^ 2)%R in
        let T_ := (1 - R_)%R in
        Ret (Powers R_ T_)
      else Ret (Amplitudes r t)
    else Raise AssertionError.

(** ** Calls on one object, in sequence *)

Inductive call : Type :=
| CalculateTransferMatrices (envEpsr envMur : R)
| CalculatePropagationMatrices (omega : R)
| SimulateRt (RT : bool).

(** One method call: what the caller gets and the object afterwards.  The
    two setters return [None]; [simulate_rt] assigns no attribute. *)
Definition invoke (c : call) (self : model) : outcome (option result) * model :=
  match c with
  | CalculateTransferMatrices e mu =>
      let (o, self') := calculateTransferMatrices e mu self in
      (bind o (fun _ => Ret None), self')
  | CalculatePropagationMatrices w => (Ret None, calculatePropagationMatrices w self)
  | SimulateRt RT => (bind (simulate_rt RT self) (fun v => Ret (Some v)), self)
  end.

(** The object after a sequence of calls whose exceptions the caller catches. *)
Definition run (cs : list call) (self : model) : model :=
  fold_left (fun s c => snd (invoke c s)) cs self.

Definition is_env_call (c : call) : bool :=
  match c with CalculateTransferMatrices _ _ => true | _ => false end.

Definition is_freq_call (c : call) : bool :=
  match c with CalculatePropagationMatrices _ => true | _ => false end.

(** A call of calculateTransferMatrices that returns. *)
Definition env_call_ok (c : call) : Prop :=
  match c with CalculateTransferMatrices e _ => e <> 0%R | _ => False end.

(** The object of the example under [__main__]:
    [PhotonicCrystal1d(N=30, d1=15e-2, d2=5e-2, epsr1=2, epsr2=4)], and the
    calls it makes before simulating. *)
Definition crystal : model :=
  mkModel 30 15e-2 5e-2 2 4 1 1
    (sqrt ((Mu0 * 1) / (Eps0 * 2))) (sqrt ((Mu0 * 1) / (Eps0 * 4)))
    None (Some 15%Z) ∅ ∅ None None None.

Definition main_calls (w : R) : list call :=
  [CalculateTransferMatrices 1 1; CalculatePropagationMatrices w].

(** ** The specification's vocabulary *)

(** The impedance-matching form 0.5 * [[1+delta, 1-delta], [1-delta, 1+delta]]. *)
Definition impedance_form (delta : R) : array2x2 R :=
  mk2x2 (0.5 * (1 + delta))%R (0.5 * (1 - delta))%R
        (0.5 * (1 - delta))%R (0.5 * (1 + delta))%R.

(** Wave impedance sqrt(mu0 mur / (eps0 epsr)) of a medium. *)
Definition impedance (epsr mur : R) : R := sqrt ((Mu0 * mur) / (Eps0 * epsr)).

(** Wavenumber omega * sqrt(eps0 mu0 epsr mur). *)
Definition wavenumber (w epsr mur : R) : R := (w * sqrt (Eps0 * Mu0 * epsr * mur))%R.

(** The diagonal array diag(exp(+i k d), exp(-i k d)). *)
Definition propagation_form (k d : R) : array2x2 C :=
  mk2x2 (Cexp (mkC 0 (k * d))) (mkC 0 0) (mkC 0 0) (Cexp (mkC 0 (- (k * d)))).

(** The 2x2 identity. *)
Definition identity2 : array2x2 R := mk2x2 1%R 0%R 0%R 1%R.

(** Type of the last layer: 2 for an even layer count, 1 for an odd one. *)
Definition parity_last (n : Z) : Z := if Z.even n then 2%Z else 1%Z.

(** The six stored matrices the cascade reads. *)
Record tables : Type := mkTables {
  t_env2one : array2x2 R;
  t_one2two : array2x2 R;
  t_two2one : array2x2 R;
  t_last2env : array2x2 R;
  p_one : array2x2 C;
  p_two : array2x2 C
}.

(** [stored self tb]: the two dictionaries of [self] hold exactly the
    entries of [tb] under the six keys. *)
Definition stored (self : model) (tb : tables) : Prop :=
  transferMatrices self !! "env2one" = Some (t_env2one tb) /\
  transferMatrices self !! "one2two" = Some (t_one2two tb) /\
  transferMatrices self !! "two2one" = Some (t_two2one tb) /\
  transferMatrices self !! "last2env" = Some (t_last2env tb) /\
  propagationMatrices self !! "one" = Some (p_one tb) /\
  propagationMatrices self !! "two" = Some (p_two tb).

(** What the power mode makes of the amplitudes: R = |r|^2 and T = 1 - R. *)
Definition power_of (v : result) : outcome result :=
  match v with
  | Amplitudes r _ => Ret (Powers (Cabs r ^ 2) (1 - Cabs r ^ 2))
  | Powers R_ T_ => Ret (Powers R_ T_)
  end.

(** The cascade in the specification's words.  One step: right-multiply by
    the propagation matrix of the current layer type, then by the crossing
    transfer matrix ("two2one" when the flag is 0, "one2two" when it is 1). *)
Definition cascade_step (tb : tables) (Q : array2x2 C) (flag : Z) : array2x2 C :=
  if (flag =? 0)%Z
  then matmul (matmul Q (p_one tb)) (astype_complex (t_two2one tb))
  else matmul (matmul Q (p_two tb)) (astype_complex (t_one2two tb)).

(** Flipping the flag between 0 and 1. *)
Definition flip (flag : Z) : Z := if (flag =? 0)%Z then 1%Z else 0%Z.

(** [n] steps from [Q] and [flag]: the matrix and the flag afterwards. *)
Fixpoint cascade_steps (n : nat) (tb : tables) (Q : array2x2 C) (flag : Z)
  : array2x2 C * Z :=
  match n with
  | O => (Q, flag)
  | S n' => cascade_steps n' tb (cascade_step tb Q flag) (flip flag)
  end.

(** Start at "last2env" with the flag at [last - 1], take [layerCount - 1]
    steps, then close with the type-1 propagation matrix and "env2one". *)
Definition cascade (tb : tables) (last layerCount : Z) : array2x2 C :=
  let Q := astype_complex (t_last2env tb) in
  let Q := fst (cascade_steps (Z.to_nat (layerCount - 1)) tb Q (last - 1)%Z) in
  matmul (matmul Q (p_one tb)) (astype_complex (t_env2one tb)).

(** r = -Q[1,0]/Q[1,1] and t = Q[0,0] - (Q[0,1] Q[1,0])/Q[1,1]. *)
Definition reflection (Q : array2x2 C) : C := Cdiv (Cneg (a10 Q)) (a11 Q).
Definition transmission (Q : array2x2 C) : C :=
  Csub (a00 Q) (Cdiv (Cmul (a01 Q) (a10 Q)) (a11 Q)).

(** ** Invariants of an object along its calls *)

(** The attributes fixed by the constructor. *)
Definition same_stack (a b : model) : Prop :=
  N a = N b /\ d1 a = d1 b /\ d2 a = d2 b /\
  epsr1 a = epsr1 b /\ epsr2 a = epsr2 b /\
  mur1 a = mur1 b /\ mur2 a = mur2 b /\ Z1 a = Z1 b /\ Z2 a = Z2 b.

(** Only the four, respectively two, keys are ever written. *)
Definition only_keys (self : model) : Prop :=
  (forall k : string, k <> "env2one" -> k <> "one2two" -> k <> "two2one" ->
     k <> "last2env" -> transferMatrices self !! k = None) /\
  (forall k : string, k <> "one" -> k <> "two" -> propagationMatrices self !! k = None).

(** What a returning call of each setter leaves behind, and later calls keep. *)
Definition env_built (self : model) : Prop :=
  last self = Some (parity_last (N self)) /\
  is_Some (transferMatrices self !! "env2one") /\
  is_Some (transferMatrices self !! "one2two") /\
  is_Some (transferMatrices self !! "two2one") /\
  is_Some (transferMatrices self !! "last2env").

Definition freq_built (self : model) : Prop :=
  is_Some (propagationMatrices self !! "one") /\
  is_Some (propagationMatrices self !! "two").

(** ** The remaining method and the loops under [__main__] *)

Section Printing.
(** [str(x)] of a number inside an f-string, and [format(x, ".2e")]. *)
Variable str_float : R -> string.
Variable format_2e : R -> string.

(** [f"{v}"] on an attribute that may still be [None]. *)
Definition str_attr (v : option R) : string :=
  match v with
  | None => "None"
  | Some x => str_float x
  end.

(** [showParas(self)]: the lines printed, in order, and how the call ends.
    [f"{self.omega:.2e}"] on [None] raises [TypeError], after the three
    earlier [print]s have run. *)
Definition showParas (self : model) : list string * outcome unit :=
  let out :=
    [ "Current Parameters:";
      "Environment permittivity(EpsilonRelative): " +:+ str_attr (envEpsr self);
      "Environment permeability(MuRelative): " +:+ str_attr (envMur self) ] in
  match omega self with
  | None => (out, Raise TypeError)
  | Some w => (out ++ ["Angular frequency: " +:+ format_2e w +:+ "Hz"], Ret tt)
  end.
End Printing.

(** A Python number as [simulate_rt] hands it out. *)
Inductive scalar : Type :=
| Float (x : R)
| Complex (z : C).

(** [R, T = crystal.simulate_rt(RT=True)]: tuple unpacking. *)
Definition unpack (v : result) : scalar * scalar :=
  match v with
  | Amplitudes r t => (Complex r, Complex t)
  | Powers R_ T_ => (Float R_, Float T_)
  end.

(** The sweep under [__main__] (lines 144 to 150): for each omega, set the
    frequency, simulate in power mode, append T to [Ts] and R to [Rs].  An
    exception ends the loop and leaves the object as it then is. *)
Fixpoint sweep (omegas : list R) (crystal : model) (Ts Rs : list scalar)
  : outcome (list scalar * list scalar) * model :=
  match omegas with
  | [] => (Ret (Ts, Rs), crystal)
  | omega :: rest =>
      let crystal := calculatePropagationMatrices omega crystal in
      match simulate_rt true crystal with
      | Raise e => (Raise e, crystal)
      | Ret v =>
          let R_ := fst (unpack v) in
          let T_ := snd (unpack v) in
          sweep rest crystal (Ts ++ [T_]) (Rs ++ [R_])
      end
  end.

(** ** Vocabulary for the physics of the cascade *)

(** Squared modulus of a complex number. *)
Definition Cnorm2 (a : C) : R := (re a * re a + im a * im a)%R.

(** A 2x2 complex array of the shape [[alpha, beta], [conj beta, conj alpha]]
    with |alpha|^2 - |beta|^2 = c. *)
Definition balanced (Q : array2x2 C) (c : R) : Prop :=
  a11 Q = Cconj (a00 Q) /\ a10 Q = Cconj (a01 Q) /\
  (Cnorm2 (a00 Q) - Cnorm2 (a01 Q))%R = c.

(** The six matrices a returning calculateTransferMatrices and a
    calculatePropagationMatrices store on a stack with impedances [z1], [z2]
    in an environment of impedance [zenv]. *)
Definition tables_of (z1 z2 zenv : R) (n : Z) (k1 dd1 k2 dd2 : R) : tables :=
  mkTables (impedance_form (z1 / zenv)) (impedance_form (z2 / z1))
    (impedance_form (z1 / z2))
    (impedance_form (zenv / (if Z.even n then z2 else z1)))
    (propagation_form k1 dd1) (propagation_form k2 dd2).

(** What simulate_rt hands out for amplitudes [v], by mode. *)
Definition power_if (RT : bool) (v : result) : outcome result :=
  if RT then power_of v else Ret v.

(** A 2x2 complex array with zero off-diagonal entries. *)
Definition diagonal (Q : array2x2 C) : Prop :=
  a01 Q = mkC 0 0 /\ a10 Q = mkC 0 0.

(** Product of the impedance ratios met in [m] steps that start at [flag]. *)
Definition crossing_product (z1 z2 : R) (m : nat) (flag : Z) : R :=
  if Nat.even m then 1%R
  else if (flag =? 0)%Z then (z1 / z2)%R else (z2 / z1)%R.

End PhotonicCrystal1d.

(** * Properties *)

Module Props.
Import Cplx Arr PhotonicCrystal1d.
Local Open Scope R_scope.

(** ** Arithmetic of the scalars *)

Lemma C_eq (a b : C) : re a = re b -> im a = im b -> a = b.
Proof. destruct a, b; simpl; intros -> ->; reflexivity. Qed.

Lemma array_eq {A} (p q : array2x2 A) :
  a00 p = a00 q -> a01 p = a01 q -> a10 p = a10 q -> a11 p = a11 q -> p = q.
Proof. destruct p, q; simpl; intros -> -> -> ->; reflexivity. Qed.

Lemma Cmul_i_real (k d : R) : Cmul (Cmul Ci (RtoC k)) (RtoC d) = mkC 0 (k * d).
Proof. apply C_eq; simpl; ring. Qed.

Lemma Cmul_negi_real (k d : R) :
  Cmul (Cmul (Cneg Ci) (RtoC k)) (RtoC d) = mkC 0 (- (k * d)).
Proof. apply C_eq; simpl; ring. Qed.

Lemma Cexp_conj (y : R) : Cexp (mkC 0 (- y)) = Cconj (Cexp (mkC 0 y)).
Proof.
  unfold Cexp, Cconj; simpl.
  rewrite cos_neg, sin_neg. apply C_eq; simpl; ring.
Qed.

Lemma Cabs_0 : Cabs (mkC 0 0) = 0.
Proof.
  unfold Cabs; simpl. replace (0 * 0 + 0 * 0) with 0 by ring. apply sqrt_0.
Qed.

Lemma scale_half (delta : R) :
  scale 0.5 (mk2x2 (1 + delta) (1 - delta) (1 - delta) (1 + delta)) = impedance_form delta.
Proof. reflexivity. Qed.

Lemma mod2_even (n : Z) : (n mod 2 =? 0)%Z = Z.even n.
Proof.
  rewrite Zmod_even. destruct (Z.even n); reflexivity.
Qed.

Lemma Eps0_pos : 0 < Eps0.
Proof. unfold Eps0. lra. Qed.

Lemma Mu0_pos : 0 < Mu0.
Proof. unfold Mu0. pose proof PI_RGT_0. nra. Qed.

(** ** Python float division *)

Lemma truediv_Ret (x y : R) : y <> 0 -> truediv x y = Ret (x / y).
Proof. intros Hy. unfold truediv. destruct (Req_dec_T y 0); [contradiction | reflexivity]. Qed.

Lemma truediv_Raise (x y : R) : y = 0 -> truediv x y = Raise ZeroDivisionError.
Proof. intros Hy. unfold truediv. destruct (Req_dec_T y 0); [reflexivity | contradiction]. Qed.

Lemma Eps0_scaled_nonzero (e : R) : e <> 0 -> Eps0 * e <> 0.
Proof. intros He. apply Rmult_integral_contrapositive_currified; [|exact He].
  pose proof Eps0_pos. lra. Qed.

(** ** The constructor *)

Lemma init_Ret n dd1 dd2 e1 e2 m1 m2 :
  e1 <> 0 -> e2 <> 0 ->
  __init__ n dd1 dd2 e1 e2 m1 m2
  = Ret (mkModel n dd1 dd2 e1 e2 m1 m2 (impedance e1 m1) (impedance e2 m2) None
           (if (n mod 2 =? 0)%Z then Some (n / 2)%Z else None) ∅ ∅ None None None).
Proof.
  intros H1 H2. unfold __init__.
  rewrite !truediv_Ret by (apply Eps0_scaled_nonzero; assumption). reflexivity.
Qed.

Lemma init_inv n dd1 dd2 e1 e2 m1 m2 fresh :
  __init__ n dd1 dd2 e1 e2 m1 m2 = Ret fresh ->
  e1 <> 0 /\ e2 <> 0 /\
  fresh = mkModel n dd1 dd2 e1 e2 m1 m2 (impedance e1 m1) (impedance e2 m2) None
            (if (n mod 2 =? 0)%Z then Some (n / 2)%Z else None) ∅ ∅ None None None.
Proof.
  intros H.
  destruct (Req_dec_T e1 0) as [-> | H1].
  { unfold __init__ in H. rewrite truediv_Raise in H by ring. discriminate H. }
  destruct (Req_dec_T e2 0) as [-> | H2].
  { unfold __init__ in H. rewrite truediv_Ret in H by (apply Eps0_scaled_nonzero, H1).
    simpl in H. rewrite truediv_Raise in H by ring. discriminate H. }
  rewrite init_Ret in H by assumption. injection H as <-. auto.
Qed.

(** ** The two setters, entry by entry *)

Lemma build_lookup_env2one envZ self :
  transferMatrices (buildTransferMatrices envZ self) !! "env2one"
  = Some (impedance_form (Z1 self / envZ)).
Proof.
  unfold buildTransferMatrices; simpl.
  destruct (N self mod 2 =? 0)%Z; simpl; rewrite !scale_half;
    repeat (rewrite lookup_insert_ne by done); apply lookup_insert_eq.
Qed.

Lemma build_lookup_one2two envZ self :
  transferMatrices (buildTransferMatrices envZ self) !! "one2two"
  = Some (impedance_form (Z2 self / Z1 self)).
Proof.
  unfold buildTransferMatrices; simpl.
  destruct (N self mod 2 =? 0)%Z; simpl; rewrite !scale_half;
    repeat (rewrite lookup_insert_ne by done); apply lookup_insert_eq.
Qed.

Lemma build_lookup_two2one envZ self :
  transferMatrices (buildTransferMatrices envZ self) !! "two2one"
  = Some (impedance_form (Z1 self / Z2 self)).
Proof.
  unfold buildTransferMatrices; simpl.
  destruct (N self mod 2 =? 0)%Z; simpl; rewrite !scale_half;
    repeat (rewrite lookup_insert_ne by done); apply lookup_insert_eq.
Qed.

Lemma build_lookup_last2env envZ self :
  transferMatrices (buildTransferMatrices envZ self) !! "last2env"
  = Some (impedance_form (envZ / (if Z.even (N self) then Z2 self else Z1 self))).
Proof.
  unfold buildTransferMatrices; simpl. rewrite mod2_even.
  destruct (Z.even (N self)); simpl; rewrite !scale_half; apply lookup_insert_eq.
Qed.

Lemma build_lookup_other envZ self (k : string) :
  k <> "env2one" -> k <> "one2two" -> k <> "two2one" -> k <> "last2env" ->
  transferMatrices (buildTransferMatrices envZ self) !! k = transferMatrices self !! k.
Proof.
  intros H1 H2 H3 H4. unfold buildTransferMatrices; simpl.
  destruct (N self mod 2 =? 0)%Z; simpl;
    repeat (rewrite lookup_insert_ne by congruence); reflexivity.
Qed.

Lemma build_last envZ self :
  last (buildTransferMatrices envZ self) = Some (parity_last (N self)).
Proof.
  unfold buildTransferMatrices, parity_last; simpl. rewrite mod2_even.
  destruct (Z.even (N self)); reflexivity.
Qed.

(** What a call of calculateTransferMatrices does, by cases on envEpsr. *)
Lemma calculateTransferMatrices_Ret e mu self :
  e <> 0 ->
  calculateTransferMatrices e mu self
  = (Ret tt, buildTransferMatrices (impedance e mu)
               (set_envMur (Some mu) (set_envEpsr (Some e) self))).
Proof.
  intros He. unfold calculateTransferMatrices.
  rewrite truediv_Ret by (apply Eps0_scaled_nonzero, He). reflexivity.
Qed.

Lemma calculateTransferMatrices_Raise e mu self :
  e = 0 ->
  calculateTransferMatrices e mu self
  = (Raise ZeroDivisionError, set_envMur (Some mu) (set_envEpsr (Some e) self)).
Proof.
  intros He. unfold calculateTransferMatrices.
  rewrite truediv_Raise by (rewrite He; ring). reflexivity.
Qed.

Lemma transfer_stored e mu self :
  e <> 0 ->
  let self' := snd (calculateTransferMatrices e mu self) in
  transferMatrices self' !! "env2one" = Some (impedance_form (Z1 self / impedance e mu)) /\
  transferMatrices self' !! "one2two" = Some (impedance_form (Z2 self / Z1 self)) /\
  transferMatrices self' !! "two2one" = Some (impedance_form (Z1 self / Z2 self)) /\
  transferMatrices self' !! "last2env"
    = Some (impedance_form
              (impedance e mu / (if Z.even (N self) then Z2 self else Z1 self))) /\
  last self' = Some (parity_last (N self)).
Proof.
  intros He self'. unfold self'. rewrite calculateTransferMatrices_Ret by exact He.
  cbn [snd].
  rewrite build_lookup_env2one, build_lookup_one2two, build_lookup_two2one,
    build_lookup_last2env, build_last.
  repeat split.
Qed.

Lemma transfer_lookup_other e mu self (k : string) :
  k <> "env2one" -> k <> "one2two" -> k <> "two2one" -> k <> "last2env" ->
  transferMatrices (snd (calculateTransferMatrices e mu self)) !! k
  = transferMatrices self !! k.
Proof.
  intros H1 H2 H3 H4. destruct (Req_dec_T e 0) as [He | He].
  - rewrite calculateTransferMatrices_Raise by exact He. reflexivity.
  - rewrite calculateTransferMatrices_Ret by exact He. cbn [snd].
    rewrite build_lookup_other by assumption. reflexivity.
Qed.

Lemma propagation_lookup_one w self :
  propagationMatrices (calculatePropagationMatrices w self) !! "one"
  = Some (propagation_form (wavenumber w (epsr1 self) (mur1 self)) (d1 self)).
Proof.
  unfold calculatePropagationMatrices; simpl.
  rewrite lookup_insert_ne by done. rewrite lookup_insert_eq.
  unfold propagation_form, wavenumber.
  rewrite Cmul_i_real, Cmul_negi_real. reflexivity.
Qed.

Lemma propagation_lookup_two w self :
  propagationMatrices (calculatePropagationMatrices w self) !! "two"
  = Some (propagation_form (wavenumber w (epsr2 self) (mur2 self)) (d2 self)).
Proof.
  unfold calculatePropagationMatrices; simpl.
  rewrite lookup_insert_eq.
  unfold propagation_form, wavenumber.
  rewrite Cmul_i_real, Cmul_negi_real. reflexivity.
Qed.

Lemma propagation_lookup_other w self (k : string) :
  k <> "one" -> k <> "two" ->
  propagationMatrices (calculatePropagationMatrices w self) !! k
  = propagationMatrices self !! k.
Proof.
  intros H1 H2. unfold calculatePropagationMatrices; simpl.
  repeat (rewrite lookup_insert_ne by congruence); reflexivity.
Qed.

(** ** Attributes a method does not assign *)

Lemma same_stack_refl a : same_stack a a.
Proof. repeat split. Qed.

Lemma same_stack_trans a b c : same_stack a b -> same_stack b c -> same_stack a c.
Proof. unfold same_stack. intuition congruence. Qed.

Lemma build_frame envZ self :
  let self' := buildTransferMatrices envZ self in
  same_stack self' self /\
  propagationMatrices self' = propagationMatrices self /\
  omega self' = omega self /\ envEpsr self' = envEpsr self /\
  envMur self' = envMur self.
Proof.
  unfold buildTransferMatrices, same_stack; simpl.
  destruct (N self mod 2 =? 0)%Z; simpl; repeat split; reflexivity.
Qed.

(** calculateTransferMatrices, whether it returns or raises. *)
Lemma calculateTransferMatrices_frame e mu self :
  let self' := snd (calculateTransferMatrices e mu self) in
  same_stack self' self /\
  propagationMatrices self' = propagationMatrices self /\
  omega self' = omega self /\
  envEpsr self' = Some e /\ envMur self' = Some mu.
Proof.
  destruct (Req_dec_T e 0) as [He | He].
  - rewrite calculateTransferMatrices_Raise by exact He. simpl. repeat split.
  - rewrite calculateTransferMatrices_Ret by exact He. cbn [snd]. cbv zeta.
    destruct (build_frame (impedance e mu)
                (set_envMur (Some mu) (set_envEpsr (Some e) self)))
      as (Hs & -> & -> & -> & ->).
    split; [|repeat split]. exact Hs.
Qed.

(** A call that raises has assigned envEpsr and envMur and nothing else. *)
Lemma calculateTransferMatrices_raise_frame mu self :
  let self' := snd (calculateTransferMatrices 0 mu self) in
  fst (calculateTransferMatrices 0 mu self) = Raise ZeroDivisionError /\
  transferMatrices self' = transferMatrices self /\ last self' = last self.
Proof.
  rewrite calculateTransferMatrices_Raise by reflexivity. simpl. repeat split.
Qed.

Lemma calculatePropagationMatrices_frame w self :
  let self' := calculatePropagationMatrices w self in
  same_stack self' self /\ last self' = last self /\
  transferMatrices self' = transferMatrices self /\
  envEpsr self' = envEpsr self /\ envMur self' = envMur self /\
  omega self' = Some w.
Proof. unfold calculatePropagationMatrices, same_stack; simpl. repeat split; reflexivity. Qed.

(** ** Invariants along a sequence of calls *)

Lemma run_cons c cs self : run (c :: cs) self = run cs (snd (invoke c self)).
Proof. reflexivity. Qed.

Lemma invoke_env e mu self :
  snd (invoke (CalculateTransferMatrices e mu) self)
  = snd (calculateTransferMatrices e mu self).
Proof. simpl. destruct (calculateTransferMatrices e mu self); reflexivity. Qed.

Lemma invoke_freq w self :
  snd (invoke (CalculatePropagationMatrices w) self) = calculatePropagationMatrices w self.
Proof. reflexivity. Qed.

Lemma run_preserves (P : model -> Prop) :
  (forall c self, P self -> P (snd (invoke c self))) ->
  forall cs self, P self -> P (run cs self).
Proof.
  intros Hstep cs. induction cs as [|c cs IH]; intros self HP; [exact HP|].
  rewrite run_cons. apply IH, Hstep, HP.
Qed.

Lemma invoke_same_stack c self : same_stack (snd (invoke c self)) self.
Proof.
  destruct c.
  - rewrite invoke_env. apply calculateTransferMatrices_frame.
  - apply calculatePropagationMatrices_frame.
  - apply same_stack_refl.
Qed.

Lemma run_same_stack cs self : same_stack (run cs self) self.
Proof.
  apply (run_preserves (fun s => same_stack s self)).
  - intros c s Hs. eapply same_stack_trans; [apply invoke_same_stack | exact Hs].
  - apply same_stack_refl.
Qed.

Lemma invoke_only_keys c self : only_keys self -> only_keys (snd (invoke c self)).
Proof.
  intros [Ht Hp]. destruct c.
  - rewrite invoke_env. split.
    + intros k H1 H2 H3 H4. rewrite transfer_lookup_other by assumption. auto.
    + destruct (calculateTransferMatrices_frame envEpsr0 envMur0 self)
        as (_ & -> & _). exact Hp.
  - split.
    + exact Ht.
    + intros k H1 H2. rewrite invoke_freq, propagation_lookup_other by assumption. auto.
  - split; assumption.
Qed.

Lemma init_only_keys n dd1 dd2 e1 e2 m1 m2 fresh :
  __init__ n dd1 dd2 e1 e2 m1 m2 = Ret fresh -> only_keys fresh.
Proof.
  intros H. apply init_inv in H as (_ & _ & ->). split; intros; apply lookup_empty.
Qed.

(** The table a setter leaves is the one it would build on any object with
    the same stack and no foreign key. *)
Lemma transfer_table_rebuilt e mu a b :
  e <> 0 -> same_stack a b -> only_keys a -> only_keys b ->
  transferMatrices (snd (calculateTransferMatrices e mu a))
  = transferMatrices (snd (calculateTransferMatrices e mu b)).
Proof.
  intros He (HN & _ & _ & _ & _ & _ & _ & HZ1 & HZ2) [Ha _] [Hb _].
  destruct (transfer_stored e mu a He) as (A1 & A2 & A3 & A4 & _).
  destruct (transfer_stored e mu b He) as (B1 & B2 & B3 & B4 & _).
  apply map_eq. intros k.
  destruct (decide (k = "env2one")) as [-> | H1].
  { rewrite A1, B1, HZ1. reflexivity. }
  destruct (decide (k = "one2two")) as [-> | H2].
  { rewrite A2, B2, HZ1, HZ2. reflexivity. }
  destruct (decide (k = "two2one")) as [-> | H3].
  { rewrite A3, B3, HZ1, HZ2. reflexivity. }
  destruct (decide (k = "last2env")) as [-> | H4].
  { rewrite A4, B4, HN, HZ1, HZ2. reflexivity. }
  rewrite !transfer_lookup_other by assumption.
  rewrite Ha, Hb by assumption. reflexivity.
Qed.

Lemma propagation_table_rebuilt w a b :
  same_stack a b -> only_keys a -> only_keys b ->
  propagationMatrices (calculatePropagationMatrices w a)
  = propagationMatrices (calculatePropagationMatrices w b).
Proof.
  intros (_ & Hd1 & Hd2 & He1 & He2 & Hm1 & Hm2 & _) [_ Ha] [_ Hb].
  apply map_eq. intros k.
  destruct (decide (k = "one")) as [-> | H1].
  { rewrite !propagation_lookup_one, Hd1, He1, Hm1. reflexivity. }
  destruct (decide (k = "two")) as [-> | H2].
  { rewrite !propagation_lookup_two, Hd2, He2, Hm2. reflexivity. }
  rewrite !propagation_lookup_other by assumption.
  rewrite Ha, Hb by assumption. reflexivity.
Qed.

(** [envEpsr] and [omega] are [None] until the first call of their setter. *)
Lemma run_envEpsr_None cs self :
  is_None (envEpsr (run cs self))
  = is_None (envEpsr self) && negb (existsb is_env_call cs).
Proof.
  revert self. induction cs as [|c cs IH]; intros self.
  - simpl. rewrite andb_true_r. reflexivity.
  - rewrite run_cons, IH. destruct c.
    + rewrite invoke_env.
      destruct (calculateTransferMatrices_frame envEpsr0 envMur0 self)
        as (_ & _ & _ & -> & _).
      simpl. rewrite andb_false_r. reflexivity.
    + reflexivity.
    + reflexivity.
Qed.

Lemma run_omega_None cs self :
  is_None (omega (run cs self))
  = is_None (omega self) && negb (existsb is_freq_call cs).
Proof.
  revert self. induction cs as [|c cs IH]; intros self.
  - simpl. rewrite andb_true_r. reflexivity.
  - rewrite run_cons, IH. destruct c.
    + rewrite invoke_env.
      destruct (calculateTransferMatrices_frame envEpsr0 envMur0 self)
        as (_ & _ & -> & _). reflexivity.
    + simpl. rewrite andb_false_r. reflexivity.
    + reflexivity.
Qed.

Lemma env_call_ok_is_env_call cs :
  Exists env_call_ok cs -> existsb is_env_call cs = true.
Proof.
  induction 1 as [c cs H | c cs _ IH]; simpl.
  - destruct c; simpl in H; try contradiction. reflexivity.
  - rewrite IH. apply orb_true_r.
Qed.

Lemma env_call_builds e mu self :
  e <> 0 -> env_built (snd (calculateTransferMatrices e mu self)).
Proof.
  intros He. destruct (transfer_stored e mu self He) as (A1 & A2 & A3 & A4 & Al).
  destruct (calculateTransferMatrices_frame e mu self) as ((HN & _) & _).
  unfold env_built. rewrite A1, A2, A3, A4, Al, HN.
  repeat split; eexists; reflexivity.
Qed.

Lemma invoke_env_built c self : env_built self -> env_built (snd (invoke c self)).
Proof.
  intros H. destruct c.
  - rewrite invoke_env. destruct (Req_dec_T envEpsr0 0) as [-> | He].
    + destruct (calculateTransferMatrices_raise_frame envMur0 self) as (_ & Ht & Hl).
      destruct (calculateTransferMatrices_frame 0 envMur0 self) as ((HN & _) & _).
      unfold env_built. rewrite Ht, Hl, HN. exact H.
    + apply env_call_builds, He.
  - exact H.
  - exact H.
Qed.

Lemma invoke_freq_built c self : freq_built self -> freq_built (snd (invoke c self)).
Proof.
  intros H. destruct c.
  - rewrite invoke_env. unfold freq_built.
    destruct (calculateTransferMatrices_frame envEpsr0 envMur0 self) as (_ & -> & _).
    exact H.
  - unfold freq_built. rewrite invoke_freq, propagation_lookup_one, propagation_lookup_two.
    split; eexists; reflexivity.
  - exact H.
Qed.

Lemma run_env_built cs : forall self, Exists env_call_ok cs -> env_built (run cs self).
Proof.
  induction cs as [|c cs IH]; intros self H; [inversion H|].
  rewrite run_cons. apply Exists_cons in H as [H | H].
  - apply run_preserves; [apply invoke_env_built|].
    destruct c; simpl in H; try contradiction.
    rewrite invoke_env. apply env_call_builds, H.
  - apply IH, H.
Qed.

Lemma run_freq_built cs :
  forall self, existsb is_freq_call cs = true -> freq_built (run cs self).
Proof.
  induction cs as [|c cs IH]; intros self H; [discriminate H|].
  rewrite run_cons. simpl in H. apply orb_true_iff in H as [H | H].
  - apply run_preserves; [apply invoke_freq_built|].
    destruct c; simpl in H; try discriminate H.
    unfold freq_built. rewrite invoke_freq, propagation_lookup_one, propagation_lookup_two.
    split; eexists; reflexivity.
  - apply IH, H.
Qed.

(** After any calls on a fresh object that include a returning
    calculateTransferMatrices and a calculatePropagationMatrices, the six
    entries are stored and [last] holds the parity of the layer count. *)
Lemma run_ready n dd1 dd2 e1 e2 m1 m2 fresh cs :
  __init__ n dd1 dd2 e1 e2 m1 m2 = Ret fresh ->
  Exists env_call_ok cs ->
  existsb is_freq_call cs = true ->
  let self := run cs fresh in
  is_None (envEpsr self) = false /\ is_None (omega self) = false /\
  N self = n /\ last self = Some (parity_last n) /\
  exists tb, stored self tb.
Proof.
  intros Hi He Hf self.
  assert (HE : is_None (envEpsr self) = false).
  { unfold self. rewrite run_envEpsr_None, env_call_ok_is_env_call by exact He.
    apply andb_false_r. }
  assert (HF : is_None (omega self) = false).
  { unfold self. rewrite run_omega_None, Hf. apply andb_false_r. }
  assert (HN : N self = n).
  { destruct (run_same_stack cs fresh) as (HN & _). unfold self. rewrite HN.
    apply init_inv in Hi as (_ & _ & ->). reflexivity. }
  destruct (run_env_built cs fresh He) as (Hl & [a Ha] & [b Hb] & [c Hc] & [d Hd]).
  destruct (run_freq_built cs fresh Hf) as ([p Hp] & [q Hq]).
  fold self in Hl, Ha, Hb, Hc, Hd, Hp, Hq.
  rewrite HN in Hl.
  split; [exact HE|]. split; [exact HF|]. split; [exact HN|]. split; [exact Hl|].
  exists (mkTables a b c d p q). repeat split; assumption.
Qed.

(** ** The loop of simulate_rt against the cascade of the specification *)

Lemma flip_bit f : (f = 0 \/ f = 1)%Z -> (flip f = 0 \/ flip f = 1)%Z.
Proof. intros [-> | ->]; [right | left]; reflexivity. Qed.

Lemma for_layers_cascade self tb :
  stored self tb ->
  forall n Q f, (f = 0 \/ f = 1)%Z ->
  for_layers n self Q f = Ret (cascade_steps n tb Q f).
Proof.
  intros (_ & H12 & H21 & _ & Hp1 & Hp2).
  induction n as [|n IH]; intros Q f Hf; [reflexivity|].
  destruct Hf as [-> | ->]; simpl; unfold getitem.
  - rewrite Hp1, H21. simpl. apply IH. right; reflexivity.
  - rewrite Hp2, H12. simpl. apply IH. left; reflexivity.
Qed.

Lemma cascade_steps_flag tb n :
  forall Q f, (f = 0 \/ f = 1)%Z ->
  snd (cascade_steps n tb Q f) = ((f + Z.of_nat n) mod 2)%Z.
Proof.
  induction n as [|n IH]; intros Q f Hf.
  - simpl. destruct Hf as [-> | ->]; reflexivity.
  - cbn [cascade_steps]. rewrite IH by (apply flip_bit, Hf).
    rewrite Nat2Z.inj_succ.
    destruct Hf as [-> | ->]; unfold flip; simpl Z.eqb; cbv iota.
    + f_equal; lia.
    + replace (1 + Z.succ (Z.of_nat n))%Z with (Z.of_nat n + 1 * 2)%Z by lia.
      rewrite Z_mod_plus_full. f_equal.
Qed.

Lemma parity_flag_bit n : (parity_last n - 1 = 0 \/ parity_last n - 1 = 1)%Z.
Proof. unfold parity_last. destruct (Z.even n); [right | left]; reflexivity. Qed.

(** [layerCount - 1] flips from [last - 1] end on 0, whatever the parity. *)
Lemma terminal_flag tb Q n :
  (1 <= n)%Z ->
  snd (cascade_steps (Z.to_nat (n - 1)) tb Q (parity_last n - 1)) = 0%Z.
Proof.
  intros Hn. rewrite cascade_steps_flag by apply parity_flag_bit.
  rewrite Z2Nat.id by lia. unfold parity_last.
  destruct (Z.even n) eqn:E.
  - replace (2 - 1 + (n - 1))%Z with n by lia.
    rewrite Zmod_even, E. reflexivity.
  - replace (1 - 1 + (n - 1))%Z with (n - 1)%Z by lia.
    rewrite Zmod_even, Z.even_sub, E. reflexivity.
Qed.

(** [simulate_rt] on an object whose six entries are stored. *)
Lemma simulate_rt_ready RT self tb :
  stored self tb ->
  is_None (envEpsr self) = false ->
  is_None (omega self) = false ->
  last self = Some (parity_last (N self)) ->
  (1 <= N self)%Z ->
  simulate_rt RT self =
    let Q := cascade tb (parity_last (N self)) (N self) in
    if RT
    then Ret (Powers (Cabs (reflection Q) ^ 2) (1 - Cabs (reflection Q) ^ 2))
    else Ret (Amplitudes (reflection Q) (transmission Q)).
Proof.
  intros Hst He Hw Hl Hn.
  pose proof Hst as (He1 & _ & _ & Hle & Hp1 & _).
  unfold simulate_rt. rewrite He, Hw, Hl. simpl orb. cbv iota.
  unfold getitem at 1. rewrite Hle. simpl bind at 1.
  simpl sub_last. simpl bind at 1.
  rewrite (for_layers_cascade self tb Hst) by apply parity_flag_bit.
  simpl bind at 1.
  rewrite terminal_flag by exact Hn. simpl Z.eqb. cbv iota.
  unfold getitem. rewrite Hp1, He1. simpl bind.
  unfold cascade, reflection, transmission. destruct RT; reflexivity.
Qed.

(** ** What simulate_rt can raise *)

Lemma getitem_raise {V} (d : gmap string V) key e :
  getitem d key = Raise e -> e = KeyError key.
Proof. unfold getitem. destruct (d !! key); congruence. Qed.

Lemma for_layers_raise n self :
  forall Q f e, for_layers n self Q f = Raise e -> exists key, e = KeyError key.
Proof.
  induction n as [|n IH]; intros Q f e H; [discriminate H|].
  simpl in H. destruct (f =? 0)%Z.
  - destruct (getitem (propagationMatrices self) "one") as [P|e1] eqn:E1; simpl in H.
    + destruct (getitem (transferMatrices self) "two2one") as [M|e2] eqn:E2; simpl in H.
      * eapply IH, H.
      * apply getitem_raise in E2. exists "two2one". congruence.
    + apply getitem_raise in E1. exists "one". congruence.
  - destruct (getitem (propagationMatrices self) "two") as [P|e1] eqn:E1; simpl in H.
    + destruct (getitem (transferMatrices self) "one2two") as [M|e2] eqn:E2; simpl in H.
      * eapply IH, H.
      * apply getitem_raise in E2. exists "one2two". congruence.
    + apply getitem_raise in E1. exists "two". congruence.
Qed.

Lemma simulate_rt_ValueError RT self msg :
  simulate_rt RT self = Raise (ValueError msg) ->
  is_None (envEpsr self) || is_None (omega self) = true.
Proof.
  unfold simulate_rt.
  destruct (is_None (envEpsr self) || is_None (omega self)); [reflexivity|].
  intros H. exfalso.
  destruct (getitem (transferMatrices self) "last2env") as [L|e0] eqn:E0; simpl in H;
    [|apply getitem_raise in E0; congruence].
  destruct (last self) as [l|]; simpl in H; [|discriminate H].
  destruct (for_layers _ self _ _) as [[Q f]|e1] eqn:E1; simpl in H;
    [|apply for_layers_raise in E1 as [key ->]; discriminate H].
  destruct (f =? 0)%Z; [|discriminate H].
  destruct (getitem (propagationMatrices self) "one") as [P|e2] eqn:E2; simpl in H;
    [|apply getitem_raise in E2; congruence].
  destruct (getitem (transferMatrices self) "env2one") as [M|e3] eqn:E3; simpl in H;
    [|apply getitem_raise in E3; congruence].
  destruct RT; discriminate H.
Qed.

(** ** A stack matched to its environment *)

Lemma impedance_vacuum_pos : 0 < impedance 1 1.
Proof.
  unfold impedance. apply sqrt_lt_R0.
  rewrite !Rmult_1_r. apply Rdiv_lt_0_compat; [apply Mu0_pos | apply Eps0_pos].
Qed.

Lemma impedance_form_1 : impedance_form 1 = identity2.
Proof. unfold impedance_form, identity2. f_equal; lra. Qed.

Lemma impedance_form_matched (z : R) : 0 < z -> impedance_form (z / z) = identity2.
Proof.
  intros Hz. replace (z / z) with 1 by (field; lra). apply impedance_form_1.
Qed.

Lemma matmul_identity_l (P : array2x2 C) : matmul (astype_complex identity2) P = P.
Proof. apply array_eq; apply C_eq; simpl; ring. Qed.

Lemma matmul_identity_r (P : array2x2 C) : matmul P (astype_complex identity2) = P.
Proof. apply array_eq; apply C_eq; simpl; ring. Qed.

Lemma reflection_diagonal (u v : C) :
  reflection (mk2x2 u (mkC 0 0) (mkC 0 0) v) = mkC 0 0.
Proof. unfold reflection. apply C_eq; simpl; unfold Rdiv; ring. Qed.

Lemma transmission_diagonal (u v : C) :
  transmission (mk2x2 u (mkC 0 0) (mkC 0 0) v) = u.
Proof. unfold transmission. apply C_eq; simpl; unfold Rdiv; ring. Qed.

(** simulate_rt on a one-layer object whose closing matrices are the identity. *)
Lemma simulate_rt_matched RT self tb (k : R) :
  stored self tb ->
  is_None (envEpsr self) = false ->
  is_None (omega self) = false ->
  last self = Some 1%Z ->
  N self = 1%Z ->
  t_env2one tb = identity2 ->
  t_last2env tb = identity2 ->
  p_one tb = propagation_form k (d1 self) ->
  cascade tb 1 1 = propagation_form k (d1 self) /\
  simulate_rt RT self
  = if RT then Ret (Powers 0 1)
    else Ret (Amplitudes (mkC 0 0) (Cexp (mkC 0 (k * d1 self)))).
Proof.
  intros Hst HE HW Hl HN He Hle Hp.
  assert (Hc : cascade tb 1 1 = propagation_form k (d1 self)).
  { unfold cascade. simpl. rewrite He, Hle, Hp.
    rewrite matmul_identity_l, matmul_identity_r. reflexivity. }
  split; [exact Hc|].
  rewrite (simulate_rt_ready RT self tb Hst HE HW); rewrite HN; [|exact Hl|lia].
  change (parity_last 1) with 1%Z. cbv zeta. rewrite Hc.
  unfold propagation_form. rewrite reflection_diagonal, transmission_diagonal, Cabs_0.
  destruct RT; [|reflexivity].
  do 2 f_equal; ring.
Qed.

(** ** The example object *)

Lemma crystal_init : __init__ 30 15e-2 5e-2 2 4 1 1 = Ret crystal.
Proof. rewrite init_Ret by lra. reflexivity. Qed.

Lemma main_calls_env w : Exists env_call_ok (main_calls w).
Proof. apply Exists_cons_hd. simpl. lra. Qed.

Lemma main_calls_freq w : existsb is_freq_call (main_calls w) = true.
Proof. reflexivity. Qed.

(** * The claims *)

(** C5.  After every call of calculateTransferMatrices (setEnvironment)
    that returns, on any object, the four stored transfer matrices have the
    form 0.5 * [[1+delta, 1-delta], [1-delta, 1+delta]] with delta = Z1/envZ
    for "env2one", Z2/Z1 for "one2two", Z1/Z2 for "two2one", and for
    "last2env" envZ/Z2 when the layer count is even, envZ/Z1 when it is odd;
    Z1 and Z2 are the impedances the object stores and the call leaves them
    as they were.  The call returns for every non-zero envEpsr. *)
Theorem transfer_matrices_impedance_form (envEpsr envMur : R) (self : model) :
  envEpsr <> 0 ->
  let self' := snd (calculateTransferMatrices envEpsr envMur self) in
  let envZ := sqrt ((Mu0 * envMur) / (Eps0 * envEpsr)) in
  fst (calculateTransferMatrices envEpsr envMur self) = Ret tt /\
  transferMatrices self' !! "env2one" = Some (impedance_form (Z1 self / envZ)) /\
  transferMatrices self' !! "one2two" = Some (impedance_form (Z2 self / Z1 self)) /\
  transferMatrices self' !! "two2one" = Some (impedance_form (Z1 self / Z2 self)) /\
  transferMatrices self' !! "last2env"
    = Some (impedance_form (if Z.even (N self) then envZ / Z2 self else envZ / Z1 self)) /\
  Z1 self' = Z1 self /\ Z2 self' = Z2 self.
Proof.
  intros He self' envZ.
  destruct (transfer_stored envEpsr envMur self He) as (A1 & A2 & A3 & A4 & _).
  destruct (calculateTransferMatrices_frame envEpsr envMur self)
    as ((_ & _ & _ & _ & _ & _ & _ & HZ1 & HZ2) & _).
  split. { rewrite calculateTransferMatrices_Ret by exact He. reflexivity. }
  split; [exact A1|]. split; [exact A2|]. split; [exact A3|].
  split; [|split; assumption].
  unfold self'. rewrite A4. fold (impedance envEpsr envMur). fold envZ.
  destruct (Z.even (N self)); reflexivity.
Qed.

Lemma transfer_matrices_impedance_form_witness :
  let self' := snd (calculateTransferMatrices 1 1 crystal) in
  let envZ := sqrt ((Mu0 * 1) / (Eps0 * 1)) in
  fst (calculateTransferMatrices 1 1 crystal) = Ret tt /\
  transferMatrices self' !! "env2one" = Some (impedance_form (Z1 crystal / envZ)) /\
  transferMatrices self' !! "one2two" = Some (impedance_form (Z2 crystal / Z1 crystal)) /\
  transferMatrices self' !! "two2one" = Some (impedance_form (Z1 crystal / Z2 crystal)) /\
  transferMatrices self' !! "last2env" = Some (impedance_form (envZ / Z2 crystal)) /\
  Z1 self' = Z1 crystal /\ Z2 self' = Z2 crystal.
Proof.
  apply (transfer_matrices_impedance_form 1 1 crystal). lra.
Defined.

(** C6.  After every call of calculatePropagationMatrices (setFrequency)
    with angular frequency w, on any object, each of the two stored
    propagation matrices is diagonal with entries exp(+i k d) and
    exp(-i k d), k = w * sqrt(eps0 mu0 epsr mur) and d the thickness of that
    layer type, and the second diagonal entry is the complex conjugate of
    the first. *)
Theorem propagation_matrices_diagonal (w : R) (self : model) :
  let self' := calculatePropagationMatrices w self in
  let k1 := w * sqrt (Eps0 * Mu0 * epsr1 self * mur1 self) in
  let k2 := w * sqrt (Eps0 * Mu0 * epsr2 self * mur2 self) in
  exists P1 P2,
    propagationMatrices self' !! "one" = Some P1 /\
    propagationMatrices self' !! "two" = Some P2 /\
    a00 P1 = Cexp (mkC 0 (k1 * d1 self)) /\ a11 P1 = Cexp (mkC 0 (- (k1 * d1 self))) /\
    a01 P1 = mkC 0 0 /\ a10 P1 = mkC 0 0 /\
    a00 P2 = Cexp (mkC 0 (k2 * d2 self)) /\ a11 P2 = Cexp (mkC 0 (- (k2 * d2 self))) /\
    a01 P2 = mkC 0 0 /\ a10 P2 = mkC 0 0 /\
    a11 P1 = Cconj (a00 P1) /\ a11 P2 = Cconj (a00 P2).
Proof.
  intros self' k1 k2.
  exists (propagation_form k1 (d1 self)), (propagation_form k2 (d2 self)).
  unfold self'. rewrite propagation_lookup_one, propagation_lookup_two.
  repeat split; simpl; apply Cexp_conj.
Qed.






(** C3.  On an object reached from the constructor by any sequence of
    calls, simulate_rt raises the uninitialized-state error (ValueError
    "Params not initialized!") exactly when the calls so far do not include
    both a calculateTransferMatrices and a calculatePropagationMatrices; the
    caller then gets the exception and no value, and whatever simulate_rt
    does, the object is left as it was. *)
Theorem simulate_rt_uninitialized
    (n : Z) (dd1 dd2 e1 e2 m1 m2 : R) (fresh : model) (cs : list call) (RT : bool) :
  __init__ n dd1 dd2 e1 e2 m1 m2 = Ret fresh ->
  let self := run cs fresh in
  let both := existsb is_env_call cs && existsb is_freq_call cs in
  (both = false <->
     simulate_rt RT self = Raise (ValueError "Params not initialized!")) /\
  (both = false ->
     fst (invoke (SimulateRt RT) self) = Raise (ValueError "Params not initialized!")) /\
  (both = true -> forall msg, simulate_rt RT self <> Raise (ValueError msg)) /\
  snd (invoke (SimulateRt RT) self) = self.
Proof.
  intros Hi self both.
  assert (Hc : is_None (envEpsr self) || is_None (omega self) = negb both).
  { unfold self, both. rewrite run_envEpsr_None, run_omega_None.
    apply init_inv in Hi as (_ & _ & ->). simpl.
    destruct (existsb is_env_call cs), (existsb is_freq_call cs); reflexivity. }
  assert (Hraise : both = false ->
            simulate_rt RT self = Raise (ValueError "Params not initialized!")).
  { intros Hb. unfold simulate_rt. rewrite Hc, Hb. reflexivity. }
  assert (Hnot : both = true -> forall msg, simulate_rt RT self <> Raise (ValueError msg)).
  { intros Hb msg H. apply simulate_rt_ValueError in H.
    rewrite Hc, Hb in H. discriminate H. }
  split; [split|].
  - exact Hraise.
  - intros H. destruct both; [|reflexivity]. exfalso. exact (Hnot eq_refl _ H).
  - split; [|split; [exact Hnot | reflexivity]].
    intros Hb. simpl. rewrite (Hraise Hb). reflexivity.
Qed.

Lemma simulate_rt_uninitialized_witness :
  simulate_rt true (run [CalculateTransferMatrices 1 1] crystal)
  = Raise (ValueError "Params not initialized!").
Proof.
  apply (simulate_rt_uninitialized 30 15e-2 5e-2 2 4 1 1 crystal
           [CalculateTransferMatrices 1 1] true crystal_init).
  reflexivity.
Defined.

(** C1.  On an object with layer count n >= 1 on which both setters have
    been called (and returned), simulate_rt returns the amplitudes of the
    cascade of the specification over the six stored matrices: Q starts at
    "last2env", the flag at last - 1, n - 1 steps each right-multiply by the
    propagation matrix of the current layer type and then by "two2one"
    (flag 0) or "one2two" (flag 1) and flip the flag, then Q is
    right-multiplied by the type-1 propagation matrix and by "env2one";
    r = -Q[1,0]/Q[1,1] and t = Q[0,0] - Q[0,1] Q[1,0] / Q[1,1]. *)
Theorem simulate_rt_follows_cascade
    (n : Z) (dd1 dd2 e1 e2 m1 m2 : R) (fresh : model) (cs : list call) :
  __init__ n dd1 dd2 e1 e2 m1 m2 = Ret fresh ->
  (1 <= n)%Z ->
  Exists env_call_ok cs ->
  existsb is_freq_call cs = true ->
  let self := run cs fresh in
  exists (tb : tables) (l : Z),
    stored self tb /\ last self = Some l /\ N self = n /\
    simulate_rt false self
    = Ret (Amplitudes (reflection (cascade tb l n)) (transmission (cascade tb l n))).
Proof.
  intros Hi Hn He Hf self.
  destruct (run_ready n dd1 dd2 e1 e2 m1 m2 fresh cs Hi He Hf)
    as (HE & HW & HN & Hl & tb & Hst).
  fold self in HE, HW, HN, Hl, Hst.
  exists tb, (parity_last n).
  split; [exact Hst|]. split; [exact Hl|]. split; [exact HN|].
  rewrite (simulate_rt_ready false self tb Hst HE HW); rewrite HN; trivial.
Qed.

Lemma simulate_rt_follows_cascade_witness :
  let self := run (main_calls 2) crystal in
  exists (tb : tables) (l : Z),
    stored self tb /\ last self = Some l /\ N self = 30%Z /\
    simulate_rt false self
    = Ret (Amplitudes (reflection (cascade tb l 30)) (transmission (cascade tb l 30))).
Proof.
  apply (simulate_rt_follows_cascade 30 15e-2 5e-2 2 4 1 1 crystal (main_calls 2)).
  - exact crystal_init.
  - lia.
  - apply main_calls_env.
  - reflexivity.
Defined.





(** C4.  For every layer count n >= 1, even or odd, once both setters have
    been called the loop of simulate_rt, started at "last2env" with the flag
    at last - 1 (last = 2 for even n, 1 for odd n), ends after its n - 1
    iterations with the flag at 0; the assertion holds, simulate_rt does not
    raise AssertionError and returns a value. *)
Theorem terminal_flag_check_holds
    (n : Z) (dd1 dd2 e1 e2 m1 m2 : R) (fresh : model) (cs : list call) (RT : bool) :
  __init__ n dd1 dd2 e1 e2 m1 m2 = Ret fresh ->
  (1 <= n)%Z ->
  Exists env_call_ok cs ->
  existsb is_freq_call cs = true ->
  let self := run cs fresh in
  exists (L : array2x2 R) (Qn : array2x2 C),
    transferMatrices self !! "last2env" = Some L /\
    last self = Some (if Z.even n then 2%Z else 1%Z) /\
    for_layers (Z.to_nat (N self - 1)) self (astype_complex L)
      ((if Z.even n then 2 else 1) - 1)%Z = Ret (Qn, 0%Z) /\
    simulate_rt RT self <> Raise AssertionError /\
    exists v, simulate_rt RT self = Ret v.
Proof.
  intros Hi Hn He Hf self.
  destruct (run_ready n dd1 dd2 e1 e2 m1 m2 fresh cs Hi He Hf)
    as (HE & HW & HN & Hl & tb & Hst).
  fold self in HE, HW, HN, Hl, Hst.
  pose proof Hst as (_ & _ & _ & HL & _).
  pose proof (terminal_flag tb (astype_complex (t_last2env tb)) n Hn) as Hflag.
  destruct (cascade_steps (Z.to_nat (n - 1)) tb (astype_complex (t_last2env tb))
              (parity_last n - 1)) as [Qn f] eqn:Hsteps.
  simpl in Hflag. subst f.
  exists (t_last2env tb), Qn.
  split; [exact HL|]. split; [exact Hl|]. split.
  { rewrite HN, (for_layers_cascade self tb Hst) by apply parity_flag_bit.
    fold (parity_last n). rewrite Hsteps. reflexivity. }
  assert (Hret : exists v, simulate_rt RT self = Ret v).
  { rewrite <- HN in Hl, Hn.
    rewrite (simulate_rt_ready RT self tb Hst HE HW Hl Hn).
    destruct RT; eexists; reflexivity. }
  split; [|exact Hret].
  destruct Hret as [v ->]. discriminate.
Qed.

Lemma terminal_flag_check_holds_witness :
  let self := run (main_calls 2) crystal in
  exists (L : array2x2 R) (Qn : array2x2 C),
    transferMatrices self !! "last2env" = Some L /\
    last self = Some 2%Z /\
    for_layers (Z.to_nat (N self - 1)) self (astype_complex L) (2 - 1)%Z = Ret (Qn, 0%Z) /\
    simulate_rt true self <> Raise AssertionError /\
    exists v, simulate_rt true self = Ret v.
Proof.
  apply (terminal_flag_check_holds 30 15e-2 5e-2 2 4 1 1 crystal (main_calls 2) true).
  - exact crystal_init.
  - lia.
  - apply main_calls_env.
  - reflexivity.
Defined.

(** C10.  With layer count 0 (the constructor accepts it), once both
    setters have been called simulate_rt raises AssertionError in either
    mode: 0 is even, so [last] is 2 and the flag starts at 1; range(-1) is
    empty, the loop body never runs, and the flag is still 1 at the check. *)
Theorem simulate_rt_zero_layers
    (dd1 dd2 e1 e2 m1 m2 : R) (fresh : model) (cs : list call) (RT : bool) :
  __init__ 0 dd1 dd2 e1 e2 m1 m2 = Ret fresh ->
  Exists env_call_ok cs ->
  existsb is_freq_call cs = true ->
  let self := run cs fresh in
  last self = Some 2%Z /\
  Z.to_nat (N self - 1) = 0%nat /\
  (forall Q, for_layers (Z.to_nat (N self - 1)) self Q (2 - 1)%Z = Ret (Q, 1%Z)) /\
  simulate_rt RT self = Raise AssertionError.
Proof.
  intros Hi He Hf self.
  destruct (run_ready 0 dd1 dd2 e1 e2 m1 m2 fresh cs Hi He Hf)
    as (HE & HW & HN & Hl & tb & Hst).
  fold self in HE, HW, HN, Hl, Hst.
  pose proof Hst as (_ & _ & _ & HL & _).
  rewrite HN. split; [exact Hl|]. split; [reflexivity|]. split; [reflexivity|].
  unfold simulate_rt. rewrite HE, HW, Hl, HN. simpl orb. cbv iota.
  unfold getitem. rewrite HL. reflexivity.
Qed.

Lemma simulate_rt_zero_layers_witness :
  exists fresh,
    __init__ 0 15e-2 5e-2 2 4 1 1 = Ret fresh /\
    simulate_rt true (run (main_calls 2) fresh) = Raise AssertionError.
Proof.
  pose proof (init_Ret 0 15e-2 5e-2 2 4 1 1 ltac:(lra) ltac:(lra)) as H.
  eexists. split; [exact H|].
  apply (simulate_rt_zero_layers 15e-2 5e-2 2 4 1 1 _ (main_calls 2) true H).
  - apply main_calls_env.
  - reflexivity.
Defined.

(** C7.  One layer, both materials and the environment with epsr = mur = 1:
    after any earlier calls, setting the environment to (1, 1) and the
    frequency to any w (in either order) stores the identity under all four
    transfer keys, the cascade Q is the type-1 propagation matrix alone,
    and simulate_rt returns (R, T) = (0, 1) in power mode and r = 0,
    t = exp(i k1 d1) in amplitude mode. *)
Theorem simulate_rt_matched_stack
    (dd1 dd2 w : R) (fresh : model) (cs : list call) (RT : bool) :
  __init__ 1 dd1 dd2 1 1 1 1 = Ret fresh ->
  let base := run cs fresh in
  let k1 := (w * sqrt (Eps0 * Mu0 * 1 * 1))%R in
  forall self : model,
    self = calculatePropagationMatrices w (snd (calculateTransferMatrices 1 1 base)) \/
    self = snd (calculateTransferMatrices 1 1 (calculatePropagationMatrices w base)) ->
    (transferMatrices self !! "env2one" = Some identity2 /\
     transferMatrices self !! "one2two" = Some identity2 /\
     transferMatrices self !! "two2one" = Some identity2 /\
     transferMatrices self !! "last2env" = Some identity2) /\
    (exists tb, stored self tb /\ cascade tb 1 1 = propagation_form k1 dd1) /\
    simulate_rt RT self
    = if RT then Ret (Powers 0 1)
      else Ret (Amplitudes (mkC 0 0) (Cexp (mkC 0 (k1 * dd1)))).
Proof.
  intros Hi base k1 self Hself.
  assert (H10 : (1 : R) <> 0) by lra.
  destruct (run_same_stack cs fresh)
    as (HN & Hd1 & Hd2 & He1 & He2 & Hm1 & Hm2 & HZ1 & HZ2).
  fold base in HN, Hd1, Hd2, He1, He2, Hm1, Hm2, HZ1, HZ2.
  apply init_inv in Hi as (_ & _ & ->). simpl in HN, Hd1, Hd2, He1, He2, Hm1, Hm2, HZ1, HZ2.
  pose proof impedance_vacuum_pos as Hz.
  set (tb := mkTables identity2 identity2 identity2 identity2
               (propagation_form k1 dd1)
               (propagation_form (w * sqrt (Eps0 * Mu0 * 1 * 1)) dd2)).
  assert (Hst : stored self tb /\ is_None (envEpsr self) = false /\
                is_None (omega self) = false /\ last self = Some 1%Z /\
                N self = 1%Z /\ d1 self = dd1).
  { destruct Hself as [-> | ->].
    - destruct (transfer_stored 1 1 base H10) as (A1 & A2 & A3 & A4 & Al).
      destruct (calculateTransferMatrices_frame 1 1 base)
        as ((BN & Bd1 & Bd2 & Be1 & Be2 & Bm1 & Bm2 & _) & _ & _ & BE & _).
      unfold stored. rewrite propagation_lookup_one, propagation_lookup_two.
      cbn [calculatePropagationMatrices set_omega setitem_propagationMatrices
           transferMatrices envEpsr omega last N d1].
      rewrite A1, A2, A3, A4, Al, BE, BN, Bd1, Bd2, Be1, Be2, Bm1, Bm2.
      rewrite HN, Hd1, Hd2, He1, He2, Hm1, Hm2, HZ1, HZ2.
      rewrite !impedance_form_matched by exact Hz.
      repeat split.
    - destruct (transfer_stored 1 1 (calculatePropagationMatrices w base) H10)
        as (A1 & A2 & A3 & A4 & Al).
      destruct (calculateTransferMatrices_frame 1 1 (calculatePropagationMatrices w base))
        as ((BN & Bd1 & _) & Bp & Bo & BE & _).
      unfold stored. rewrite A1, A2, A3, A4, Al, BE, BN, Bd1, Bp, Bo.
      rewrite propagation_lookup_one, propagation_lookup_two.
      cbn [calculatePropagationMatrices set_omega setitem_propagationMatrices
           omega N d1 Z1 Z2].
      rewrite HN, Hd1, Hd2, He1, He2, Hm1, Hm2, HZ1, HZ2.
      rewrite !impedance_form_matched by exact Hz.
      repeat split. }
  destruct Hst as (Hst & HE & HW & Hl & HN' & Hd).
  pose proof Hst as (A1 & A2 & A3 & A4 & _).
  split; [repeat split; assumption|].
  destruct (simulate_rt_matched RT self tb k1 Hst HE HW Hl HN') as [Hc Hs];
    try reflexivity.
  { rewrite Hd. reflexivity. }
  rewrite Hd in Hc, Hs.
  split; [exists tb; split; assumption | exact Hs].
Qed.

Lemma simulate_rt_matched_stack_witness :
  exists fresh,
    __init__ 1 15e-2 5e-2 1 1 1 1 = Ret fresh /\
    simulate_rt true
      (calculatePropagationMatrices 2 (snd (calculateTransferMatrices 1 1 (run [] fresh))))
    = Ret (Powers 0 1).
Proof.
  pose proof (init_Ret 1 15e-2 5e-2 1 1 1 1 ltac:(lra) ltac:(lra)) as H.
  eexists. split; [exact H|].
  apply (simulate_rt_matched_stack 15e-2 5e-2 2 _ [] true H).
  left. reflexivity.
Defined.

End Props.

(** * Further properties of the class and of the loops that use it *)

Module Extra.
Import Cplx Arr PhotonicCrystal1d Props.
Local Open Scope R_scope.

(** ** Objects are equal when their attributes are *)

Lemma model_eq (a b : model) :
  same_stack a b -> last a = last b -> periods a = periods b ->
  transferMatrices a = transferMatrices b ->
  propagationMatrices a = propagationMatrices b ->
  envEpsr a = envEpsr b -> envMur a = envMur b -> omega a = omega b ->
  a = b.
Proof.
  destruct a, b; unfold same_stack; simpl.
  intros (-> & -> & -> & -> & -> & -> & -> & -> & ->) -> -> -> -> -> -> ->.
  reflexivity.
Qed.

Lemma build_periods envZ self :
  periods (buildTransferMatrices envZ self) = periods self.
Proof.
  unfold buildTransferMatrices; simpl. destruct (N self mod 2 =? 0)%Z; reflexivity.
Qed.

Lemma calculateTransferMatrices_periods e mu self :
  periods (snd (calculateTransferMatrices e mu self)) = periods self.
Proof.
  destruct (Req_dec_T e 0) as [He | He].
  - rewrite calculateTransferMatrices_Raise by exact He. reflexivity.
  - rewrite calculateTransferMatrices_Ret by exact He. cbn [snd].
    rewrite build_periods. reflexivity.
Qed.

Lemma calculatePropagationMatrices_periods w self :
  periods (calculatePropagationMatrices w self) = periods self.
Proof. reflexivity. Qed.

(** [last] and the transfer table after a call, by cases on envEpsr. *)
Lemma calculateTransferMatrices_last e mu self :
  last (snd (calculateTransferMatrices e mu self))
  = if Req_dec_T e 0 then last self else Some (parity_last (N self)).
Proof.
  destruct (Req_dec_T e 0) as [He | He].
  - rewrite calculateTransferMatrices_Raise by exact He. reflexivity.
  - apply (transfer_stored e mu self He).
Qed.

Lemma transfer_table_ext e mu a b :
  same_stack a b -> transferMatrices a = transferMatrices b ->
  transferMatrices (snd (calculateTransferMatrices e mu a))
  = transferMatrices (snd (calculateTransferMatrices e mu b)).
Proof.
  intros (HN & _ & _ & _ & _ & _ & _ & HZ1 & HZ2) Ht.
  destruct (Req_dec_T e 0) as [He | He].
  - rewrite !calculateTransferMatrices_Raise by exact He. exact Ht.
  - destruct (transfer_stored e mu a He) as (A1 & A2 & A3 & A4 & _).
    destruct (transfer_stored e mu b He) as (B1 & B2 & B3 & B4 & _).
    apply map_eq. intros k.
    destruct (decide (k = "env2one")) as [-> | H1].
    { rewrite A1, B1, HZ1. reflexivity. }
    destruct (decide (k = "one2two")) as [-> | H2].
    { rewrite A2, B2, HZ1, HZ2. reflexivity. }
    destruct (decide (k = "two2one")) as [-> | H3].
    { rewrite A3, B3, HZ1, HZ2. reflexivity. }
    destruct (decide (k = "last2env")) as [-> | H4].
    { rewrite A4, B4, HN, HZ1, HZ2. reflexivity. }
    rewrite !transfer_lookup_other by assumption. rewrite Ht. reflexivity.
Qed.

Lemma transfer_table_twice e mu self :
  transferMatrices
    (snd (calculateTransferMatrices e mu (snd (calculateTransferMatrices e mu self))))
  = transferMatrices (snd (calculateTransferMatrices e mu self)).
Proof.
  set (s1 := snd (calculateTransferMatrices e mu self)).
  destruct (calculateTransferMatrices_frame e mu self)
    as ((HN & _ & _ & _ & _ & _ & _ & HZ1 & HZ2) & _).
  fold s1 in HN, HZ1, HZ2.
  destruct (Req_dec_T e 0) as [He | He].
  - rewrite calculateTransferMatrices_Raise by exact He. reflexivity.
  - destruct (transfer_stored e mu s1 He) as (A1 & A2 & A3 & A4 & _).
    destruct (transfer_stored e mu self He) as (B1 & B2 & B3 & B4 & _).
    fold s1 in B1, B2, B3, B4.
    apply map_eq. intros k.
    destruct (decide (k = "env2one")) as [-> | H1].
    { rewrite A1, B1, HZ1. reflexivity. }
    destruct (decide (k = "one2two")) as [-> | H2].
    { rewrite A2, B2, HZ1, HZ2. reflexivity. }
    destruct (decide (k = "two2one")) as [-> | H3].
    { rewrite A3, B3, HZ1, HZ2. reflexivity. }
    destruct (decide (k = "last2env")) as [-> | H4].
    { rewrite A4, B4, HN, HZ1, HZ2. reflexivity. }
    rewrite transfer_lookup_other by assumption. reflexivity.
Qed.

Lemma propagation_table_ext w a b :
  same_stack a b -> propagationMatrices a = propagationMatrices b ->
  propagationMatrices (calculatePropagationMatrices w a)
  = propagationMatrices (calculatePropagationMatrices w b).
Proof.
  intros (_ & Hd1 & Hd2 & He1 & He2 & Hm1 & Hm2 & _) Hp.
  unfold calculatePropagationMatrices; simpl.
  rewrite Hd1, Hd2, He1, He2, Hm1, Hm2, Hp. reflexivity.
Qed.

Lemma propagation_table_twice w self :
  propagationMatrices (calculatePropagationMatrices w (calculatePropagationMatrices w self))
  = propagationMatrices (calculatePropagationMatrices w self).
Proof.
  apply map_eq. intros k.
  destruct (decide (k = "one")) as [-> | H1].
  { rewrite !propagation_lookup_one. reflexivity. }
  destruct (decide (k = "two")) as [-> | H2].
  { rewrite !propagation_lookup_two. reflexivity. }
  rewrite propagation_lookup_other by assumption. reflexivity.
Qed.

(** X1.  Setting the same environment, or the same frequency, twice in a row
    leaves the object exactly as one call does; this holds also when the
    environment call raises. *)
Theorem setters_idempotent (e mu w : R) (self : model) :
  snd (calculateTransferMatrices e mu (snd (calculateTransferMatrices e mu self)))
  = snd (calculateTransferMatrices e mu self) /\
  fst (calculateTransferMatrices e mu (snd (calculateTransferMatrices e mu self)))
  = fst (calculateTransferMatrices e mu self) /\
  calculatePropagationMatrices w (calculatePropagationMatrices w self)
  = calculatePropagationMatrices w self.
Proof.
  set (s1 := snd (calculateTransferMatrices e mu self)).
  split; [|split].
  - destruct (calculateTransferMatrices_frame e mu self) as (S1 & P1 & O1 & E1 & M1).
    destruct (calculateTransferMatrices_frame e mu s1) as (S2 & P2 & O2 & E2 & M2).
    fold s1 in S1, P1, O1, E1, M1.
    apply model_eq.
    + exact S2.
    + rewrite calculateTransferMatrices_last.
      destruct (Req_dec_T e 0) as [He | He]; [reflexivity|].
      destruct S1 as (-> & _). unfold s1.
      rewrite calculateTransferMatrices_last.
      destruct (Req_dec_T e 0); [contradiction | reflexivity].
    + apply calculateTransferMatrices_periods.
    + apply transfer_table_twice.
    + exact P2.
    + congruence.
    + congruence.
    + exact O2.
  - destruct (Req_dec_T e 0) as [He | He].
    + rewrite !calculateTransferMatrices_Raise by exact He. reflexivity.
    + rewrite !calculateTransferMatrices_Ret by exact He. reflexivity.
  - apply model_eq; try reflexivity.
    + apply calculatePropagationMatrices_frame.
    + apply propagation_table_twice.
Qed.

(** X2.  The two setters commute: either order leaves the same object. *)
Theorem setters_commute (e mu w : R) (self : model) :
  calculatePropagationMatrices w (snd (calculateTransferMatrices e mu self))
  = snd (calculateTransferMatrices e mu (calculatePropagationMatrices w self)).
Proof.
  destruct (calculateTransferMatrices_frame e mu self) as (S1 & P1 & O1 & E1 & M1).
  destruct (calculateTransferMatrices_frame e mu (calculatePropagationMatrices w self))
    as (S2 & P2 & O2 & E2 & M2).
  destruct (calculatePropagationMatrices_frame w self) as (S3 & L3 & T3 & E3 & M3 & O3).
  destruct (calculatePropagationMatrices_frame w (snd (calculateTransferMatrices e mu self)))
    as (S4 & L4 & T4 & E4 & M4 & O4).
  apply model_eq.
  - eapply same_stack_trans; [exact S4|].
    eapply same_stack_trans; [exact S1|].
    unfold same_stack in *. intuition congruence.
  - rewrite L4, !calculateTransferMatrices_last.
    destruct (Req_dec_T e 0); [congruence|]. destruct S3 as (-> & _). reflexivity.
  - rewrite calculatePropagationMatrices_periods, !calculateTransferMatrices_periods.
    reflexivity.
  - rewrite T4. apply transfer_table_ext; [|congruence].
    unfold same_stack in *. intuition congruence.
  - rewrite P2. apply propagation_table_ext; [exact S1 | exact P1].
  - congruence.
  - congruence.
  - congruence.
Qed.

(** ** What simulate_rt reads *)

Lemma for_layers_ext n a b :
  transferMatrices a = transferMatrices b ->
  propagationMatrices a = propagationMatrices b ->
  forall Q f, for_layers n a Q f = for_layers n b Q f.
Proof.
  intros Ht Hp. induction n as [|n IH]; intros Q f; [reflexivity|].
  simpl. rewrite Ht, Hp.
  destruct (f =? 0)%Z.
  - destruct (getitem (propagationMatrices b) "one"); [simpl|reflexivity].
    destruct (getitem (transferMatrices b) "two2one"); [simpl|reflexivity].
    apply IH.
  - destruct (getitem (propagationMatrices b) "two"); [simpl|reflexivity].
    destruct (getitem (transferMatrices b) "one2two"); [simpl|reflexivity].
    apply IH.
Qed.

Lemma simulate_rt_ext RT a b :
  N a = N b -> last a = last b ->
  transferMatrices a = transferMatrices b ->
  propagationMatrices a = propagationMatrices b ->
  is_None (envEpsr a) = is_None (envEpsr b) ->
  is_None (omega a) = is_None (omega b) ->
  simulate_rt RT a = simulate_rt RT b.
Proof.
  intros HN Hl Ht Hp He Hw. unfold simulate_rt.
  rewrite He, Hw, Ht, Hp, HN, Hl.
  destruct (is_None (envEpsr b) || is_None (omega b)); [reflexivity|].
  destruct (getitem (transferMatrices b) "last2env"); [simpl|reflexivity].
  destruct (sub_last (last b) 1); [simpl|reflexivity].
  rewrite (for_layers_ext _ a b Ht Hp). reflexivity.
Qed.

Lemma invoke_periods c self : periods (snd (invoke c self)) = periods self.
Proof.
  destruct c.
  - rewrite invoke_env. apply calculateTransferMatrices_periods.
  - reflexivity.
  - reflexivity.
Qed.

Lemma run_periods cs self : periods (run cs self) = periods self.
Proof.
  apply (run_preserves (fun s => periods s = periods self)); [|reflexivity].
  intros c s Hs. rewrite invoke_periods. exact Hs.
Qed.

(** After a returning environment call and a frequency call nothing of the
    earlier calls is left in the object. *)
Lemma reset_after_setters
    (n : Z) (dd1 dd2 e1 e2 m1 m2 : R) (fresh : model) (cs : list call)
    (e mu w : R) (RT : bool) :
  __init__ n dd1 dd2 e1 e2 m1 m2 = Ret fresh ->
  e <> 0 ->
  let after := calculatePropagationMatrices w
                 (snd (calculateTransferMatrices e mu (run cs fresh))) in
  let clean := calculatePropagationMatrices w
                 (snd (calculateTransferMatrices e mu fresh)) in
  after = clean /\ simulate_rt RT after = simulate_rt RT clean.
Proof.
  intros Hi He after clean.
  assert (Heq : after = clean); [|split; [exact Heq | rewrite Heq; reflexivity]].
  assert (Hs : same_stack (run cs fresh) fresh) by apply run_same_stack.
  assert (Hk0 : only_keys fresh) by (eapply init_only_keys, Hi).
  assert (Hk : only_keys (run cs fresh))
    by (apply run_preserves; [apply invoke_only_keys | exact Hk0]).
  destruct (calculateTransferMatrices_frame e mu (run cs fresh)) as (S1 & P1 & O1 & E1 & M1).
  destruct (calculateTransferMatrices_frame e mu fresh) as (S2 & P2 & O2 & E2 & M2).
  assert (S12 : same_stack (snd (calculateTransferMatrices e mu (run cs fresh)))
                  (snd (calculateTransferMatrices e mu fresh))).
  { unfold same_stack in *. intuition congruence. }
  unfold after, clean. apply model_eq.
  - unfold same_stack in *. cbn [calculatePropagationMatrices set_omega
      setitem_propagationMatrices N d1 d2 epsr1 epsr2 mur1 mur2 Z1 Z2]. exact S12.
  - cbn [calculatePropagationMatrices set_omega setitem_propagationMatrices last].
    rewrite !calculateTransferMatrices_last.
    destruct (Req_dec_T e 0); [contradiction|]. destruct Hs as (-> & _). reflexivity.
  - rewrite !calculatePropagationMatrices_periods, !calculateTransferMatrices_periods.
    apply run_periods.
  - cbn [calculatePropagationMatrices set_omega setitem_propagationMatrices transferMatrices].
    apply transfer_table_rebuilt; assumption.
  - apply propagation_table_rebuilt.
    + exact S12.
    + apply (invoke_only_keys (CalculateTransferMatrices e mu)) in Hk.
      rewrite invoke_env in Hk. exact Hk.
    + apply (invoke_only_keys (CalculateTransferMatrices e mu)) in Hk0.
      rewrite invoke_env in Hk0. exact Hk0.
  - cbn [calculatePropagationMatrices set_omega setitem_propagationMatrices envEpsr].
    congruence.
  - cbn [calculatePropagationMatrices set_omega setitem_propagationMatrices envMur].
    congruence.
  - reflexivity.
Qed.

(** X3.  Setting the environment (a call that returns) and the frequency wipes
    the history: after any earlier calls the object is the very object the
    two calls make of a fresh one, so simulate_rt depends on the constructor
    arguments and the latest environment and frequency only. *)
Theorem setters_reset_history
    (n : Z) (dd1 dd2 e1 e2 m1 m2 : R) (fresh : model) (cs : list call)
    (e mu w : R) (RT : bool) :
  __init__ n dd1 dd2 e1 e2 m1 m2 = Ret fresh ->
  e <> 0 ->
  let after := calculatePropagationMatrices w
                 (snd (calculateTransferMatrices e mu (run cs fresh))) in
  let clean := calculatePropagationMatrices w
                 (snd (calculateTransferMatrices e mu fresh)) in
  after = clean /\ simulate_rt RT after = simulate_rt RT clean.
Proof.
  intros Hi He. exact (reset_after_setters n dd1 dd2 e1 e2 m1 m2 fresh cs e mu w RT Hi He).
Qed.

Lemma setters_reset_history_witness :
  calculatePropagationMatrices 3 (snd (calculateTransferMatrices 1 1 (run (main_calls 2) crystal)))
  = calculatePropagationMatrices 3 (snd (calculateTransferMatrices 1 1 crystal)).
Proof.
  apply (setters_reset_history 30 15e-2 5e-2 2 4 1 1 crystal (main_calls 2) 1 1 3 true).
  - exact crystal_init.
  - lra.
Defined.

(** ** Energy balance of the cascade *)

Lemma Cexp_unit (y : R) : Cnorm2 (Cexp (mkC 0 y)) = 1.
Proof.
  unfold Cnorm2, Cexp; simpl. rewrite exp_0.
  pose proof (sin2_cos2 y) as H. unfold Rsqr in H. nra.
Qed.

Lemma balanced_start (delta : R) :
  balanced (astype_complex (impedance_form delta)) delta.
Proof.
  unfold balanced, Cnorm2; simpl. repeat split.
  - apply C_eq; simpl; ring.
  - apply C_eq; simpl; ring.
  - lra.
Qed.

Lemma balanced_transfer (Q : array2x2 C) (c delta : R) :
  balanced Q c ->
  balanced (matmul Q (astype_complex (impedance_form delta))) (c * delta).
Proof.
  destruct Q as [[ar ai] [br bi] [cr ci] [dr di]].
  unfold balanced, Cnorm2; simpl. intros (Hd & Hc & Hn).
  injection Hd as -> ->. injection Hc as -> ->.
  repeat split.
  - apply C_eq; simpl; ring.
  - apply C_eq; simpl; ring.
  - rewrite <- Hn. lra.
Qed.

Lemma balanced_propagation (Q : array2x2 C) (c k d : R) :
  balanced Q c -> balanced (matmul Q (propagation_form k d)) c.
Proof.
  destruct Q as [[ar ai] [br bi] [cr ci] [dr di]].
  pose proof (Cexp_unit (k * d)) as Hu.
  unfold propagation_form. rewrite Cexp_conj.
  destruct (Cexp (mkC 0 (k * d))) as [ur ui].
  unfold balanced, Cnorm2 in *; simpl in *. intros (Hd & Hc & Hn).
  injection Hd as -> ->. injection Hc as -> ->.
  repeat split.
  - apply C_eq; simpl; ring.
  - apply C_eq; simpl; ring.
  - rewrite <- Hn.
    replace ((ar * ur - ai * ui + (br * 0 - bi * 0)) *
             (ar * ur - ai * ui + (br * 0 - bi * 0)) +
             (ar * ui + ai * ur + (br * 0 + bi * 0)) *
             (ar * ui + ai * ur + (br * 0 + bi * 0)))
      with ((ar * ar + ai * ai) * (ur * ur + ui * ui)) by ring.
    replace ((ar * 0 - ai * 0 + (br * ur - bi * - ui)) *
             (ar * 0 - ai * 0 + (br * ur - bi * - ui)) +
             (ar * 0 + ai * 0 + (br * - ui + bi * ur)) *
             (ar * 0 + ai * 0 + (br * - ui + bi * ur)))
      with ((br * br + bi * bi) * (ur * ur + ui * ui)) by ring.
    rewrite Hu. ring.
Qed.

Lemma even_of_nat (m : nat) : Z.even (Z.of_nat m) = Nat.even m.
Proof.
  induction m as [|m IH]; [reflexivity|].
  rewrite Nat2Z.inj_succ, Z.even_succ, <- Z.negb_even, IH, Nat.even_succ.
  apply Nat.negb_even.
Qed.

Lemma even_steps (n : Z) :
  (1 <= n)%Z -> Nat.even (Z.to_nat (n - 1)) = negb (Z.even n).
Proof.
  intros Hn. rewrite <- even_of_nat, Z2Nat.id by lia.
  rewrite Z.even_sub. simpl. destruct (Z.even n); reflexivity.
Qed.

Lemma crossing_product_succ (z1 z2 : R) (m : nat) (f : Z) :
  z1 <> 0 -> z2 <> 0 -> (f = 0 \/ f = 1)%Z ->
  (if (f =? 0)%Z then z1 / z2 else z2 / z1) * crossing_product z1 z2 m (flip f)
  = crossing_product z1 z2 (S m) f.
Proof.
  intros H1 H2 Hf. unfold crossing_product.
  rewrite Nat.even_succ, <- Nat.negb_even.
  destruct (Nat.even m); simpl negb; cbv iota.
  - ring.
  - destruct Hf as [-> | ->]; simpl; field; split; assumption.
Qed.

(** Along the steps of the cascade the matrix keeps the balanced shape and
    its constant is multiplied by the impedance ratios crossed. *)
Lemma cascade_steps_balanced (z1 z2 zenv : R) (n : Z) (k1 dd1 k2 dd2 : R) :
  z1 <> 0 -> z2 <> 0 ->
  forall (m : nat) (Q : array2x2 C) (f : Z) (c : R),
    (f = 0 \/ f = 1)%Z -> balanced Q c ->
    balanced (fst (cascade_steps m (tables_of z1 z2 zenv n k1 dd1 k2 dd2) Q f))
      (c * crossing_product z1 z2 m f).
Proof.
  intros H1 H2. induction m as [|m IH]; intros Q f c Hf HQ.
  - simpl. unfold crossing_product. simpl. rewrite Rmult_1_r. exact HQ.
  - cbn [cascade_steps].
    rewrite <- (crossing_product_succ z1 z2 m f H1 H2 Hf), <- Rmult_assoc.
    apply IH; [apply flip_bit, Hf|].
    unfold cascade_step. destruct Hf as [-> | ->]; simpl Z.eqb; cbv iota;
      apply balanced_transfer, balanced_propagation, HQ.
Qed.

(** The whole cascade of a stack with non-zero impedances has the balanced
    shape with constant 1: all impedance ratios cancel. *)
Lemma cascade_balanced (z1 z2 zenv : R) (n : Z) (k1 dd1 k2 dd2 : R) :
  z1 <> 0 -> z2 <> 0 -> zenv <> 0 -> (1 <= n)%Z ->
  balanced (cascade (tables_of z1 z2 zenv n k1 dd1 k2 dd2) (parity_last n) n) 1.
Proof.
  intros H1 H2 H3 Hn. unfold cascade.
  set (tb := tables_of z1 z2 zenv n k1 dd1 k2 dd2).
  pose proof (cascade_steps_balanced z1 z2 zenv n k1 dd1 k2 dd2 H1 H2
                (Z.to_nat (n - 1)) (astype_complex (t_last2env tb))
                (parity_last n - 1)%Z _ (parity_flag_bit n)
                (balanced_start _)) as Hs.
  fold tb in Hs.
  apply (balanced_propagation _ _ k1 dd1) in Hs.
  apply (balanced_transfer _ _ (z1 / zenv)) in Hs.
  replace 1 with
    (zenv / (if Z.even n then z2 else z1)
     * crossing_product z1 z2 (Z.to_nat (n - 1)) (parity_last n - 1) * (z1 / zenv)).
  { exact Hs. }
  unfold crossing_product, parity_last. rewrite even_steps by exact Hn.
  destruct (Z.even n); simpl; field; repeat split; assumption.
Qed.

Lemma reflection_norm (ar ai br bi : R) :
  ar * ar + ai * ai <> 0 ->
  Cnorm2 (reflection (mk2x2 (mkC ar ai) (mkC br bi) (mkC br (- bi)) (mkC ar (- ai))))
  = (br * br + bi * bi) / (ar * ar + ai * ai).
Proof.
  intros HA. unfold Cnorm2, reflection, Cdiv, Cneg; simpl. field. nra.
Qed.

Lemma transmission_norm (ar ai br bi : R) :
  ar * ar + ai * ai <> 0 ->
  Cnorm2 (transmission (mk2x2 (mkC ar ai) (mkC br bi) (mkC br (- bi)) (mkC ar (- ai))))
  = (ar * ar + ai * ai - (br * br + bi * bi)) * (ar * ar + ai * ai - (br * br + bi * bi))
    / (ar * ar + ai * ai).
Proof.
  intros HA. unfold Cnorm2, transmission, Cdiv, Cmul, Csub; simpl. field. nra.
Qed.

(** From the balanced shape with constant 1: |r|^2 + |t|^2 = 1. *)
Lemma balanced_energy (Q : array2x2 C) :
  balanced Q 1 ->
  Cnorm2 (reflection Q) + Cnorm2 (transmission Q) = 1 /\
  0 <= Cnorm2 (reflection Q) < 1 /\ 0 < Cnorm2 (transmission Q) <= 1.
Proof.
  destruct Q as [[ar ai] [br bi] [cr ci] [dr di]].
  intros (Hd & Hc & Hn). unfold Cnorm2 in Hn. simpl in Hd, Hc, Hn.
  injection Hd as -> ->. injection Hc as -> ->.
  assert (HA : 1 <= ar * ar + ai * ai) by nra.
  rewrite reflection_norm, transmission_norm by lra.
  rewrite Hn.
  set (A := ar * ar + ai * ai) in *.
  replace (br * br + bi * bi) with (A - 1) by lra.
  assert (Hinv : 0 < / A) by (apply Rinv_0_lt_compat; lra).
  assert (Hle : / A <= 1).
  { rewrite <- Rinv_1. apply Rinv_le_contravar; lra. }
  unfold Rdiv.
  replace ((A - 1) * / A) with (1 - / A) by (field; lra).
  rewrite !Rmult_1_l.
  repeat split; lra.
Qed.

Lemma impedance_pos (epsr mur : R) : 0 < epsr -> 0 < mur -> 0 < impedance epsr mur.
Proof.
  intros He Hm. unfold impedance. apply sqrt_lt_R0.
  apply Rdiv_lt_0_compat.
  - apply Rmult_lt_0_compat; [apply Mu0_pos | exact Hm].
  - apply Rmult_lt_0_compat; [apply Eps0_pos | exact He].
Qed.

(** The six entries on a fresh object after one returning environment call
    and one frequency call. *)
Lemma clean_stored n dd1 dd2 e1 e2 m1 m2 fresh e mu w :
  __init__ n dd1 dd2 e1 e2 m1 m2 = Ret fresh ->
  e <> 0 ->
  let self := calculatePropagationMatrices w (snd (calculateTransferMatrices e mu fresh)) in
  stored self (tables_of (impedance e1 m1) (impedance e2 m2) (impedance e mu) n
                 (wavenumber w e1 m1) dd1 (wavenumber w e2 m2) dd2) /\
  is_None (envEpsr self) = false /\ is_None (omega self) = false /\
  last self = Some (parity_last n) /\ N self = n.
Proof.
  intros Hi He self.
  destruct (transfer_stored e mu fresh He) as (A1 & A2 & A3 & A4 & Al).
  destruct (calculateTransferMatrices_frame e mu fresh)
    as ((BN & Bd1 & Bd2 & Be1 & Be2 & Bm1 & Bm2 & _) & _ & _ & BE & _).
  apply init_inv in Hi as (_ & _ & Hf).
  unfold self, stored. rewrite propagation_lookup_one, propagation_lookup_two.
  cbn [calculatePropagationMatrices set_omega setitem_propagationMatrices
       transferMatrices envEpsr omega last N].
  rewrite A1, A2, A3, A4, Al, BE, BN, Bd1, Bd2, Be1, Be2, Bm1, Bm2.
  rewrite Hf. simpl. repeat split.
Qed.

(** ** Stacks that reflect nothing *)

Lemma diagonal_reflection (Q : array2x2 C) : diagonal Q -> reflection Q = mkC 0 0.
Proof.
  destruct Q as [u x y v]. intros [Hx Hy]. simpl in Hx, Hy. subst.
  apply reflection_diagonal.
Qed.

Lemma diagonal_propagation (Q : array2x2 C) (k d : R) :
  diagonal Q -> diagonal (matmul Q (propagation_form k d)).
Proof.
  destruct Q as [u x y v]. intros [Hx Hy]. simpl in Hx, Hy. subst.
  split; apply C_eq; simpl; ring.
Qed.

Lemma diagonal_identity : diagonal (astype_complex identity2).
Proof. split; reflexivity. Qed.

Lemma tables_of_matched (z : R) (n : Z) (k1 dd1 k2 dd2 : R) :
  0 < z ->
  tables_of z z z n k1 dd1 k2 dd2
  = mkTables identity2 identity2 identity2 identity2
      (propagation_form k1 dd1) (propagation_form k2 dd2).
Proof.
  intros Hz. unfold tables_of.
  replace (if Z.even n then z else z) with z by (destruct (Z.even n); reflexivity).
  rewrite !impedance_form_matched by exact Hz. reflexivity.
Qed.

Lemma cascade_steps_diagonal (k1 dd1 k2 dd2 : R) :
  forall (m : nat) (Q : array2x2 C) (f : Z),
    diagonal Q ->
    diagonal (fst (cascade_steps m
                     (mkTables identity2 identity2 identity2 identity2
                        (propagation_form k1 dd1) (propagation_form k2 dd2)) Q f)).
Proof.
  induction m as [|m IH]; intros Q f HQ; [exact HQ|].
  cbn [cascade_steps]. apply IH. unfold cascade_step.
  destruct (f =? 0)%Z; cbn [p_one p_two t_two2one t_one2two];
    rewrite matmul_identity_r; apply diagonal_propagation, HQ.
Qed.

(** X6.  A stack of any length whose two materials have the constants of the
    environment reflects nothing: for every N >= 1 and every frequency the
    power mode returns (0, 1) and the amplitude mode r = 0 with |t| = 1. *)
Theorem simulate_rt_matched_any_length
    (n : Z) (dd1 dd2 e mu w : R) (fresh : model) (cs : list call) :
  __init__ n dd1 dd2 e e mu mu = Ret fresh ->
  0 < e -> 0 < mu -> (1 <= n)%Z ->
  let self := calculatePropagationMatrices w
                (snd (calculateTransferMatrices e mu (run cs fresh))) in
  simulate_rt true self = Ret (Powers 0 1) /\
  exists t, simulate_rt false self = Ret (Amplitudes (mkC 0 0) t) /\ Cnorm2 t = 1.
Proof.
  intros Hi He Hmu Hn self.
  assert (He0 : e <> 0) by lra.
  pose proof (impedance_pos e mu He Hmu) as Hz.
  destruct (reset_after_setters n dd1 dd2 e e mu mu fresh cs e mu w true Hi He0)
    as [Heq _].
  unfold self. rewrite Heq.
  destruct (clean_stored n dd1 dd2 e e mu mu fresh e mu w Hi He0)
    as (Hst & HE & HW & Hl & HN).
  set (clean := calculatePropagationMatrices w (snd (calculateTransferMatrices e mu fresh)))
    in *.
  set (tb := tables_of _ _ _ _ _ _ _ _) in Hst.
  assert (Hb : balanced (cascade tb (parity_last n) n) 1)
    by (apply cascade_balanced; trivial; lra).
  assert (Hd : diagonal (cascade tb (parity_last n) n)).
  { unfold tb. rewrite tables_of_matched by exact Hz. unfold cascade.
    cbn [t_last2env p_one t_env2one]. rewrite matmul_identity_r.
    apply diagonal_propagation, cascade_steps_diagonal, diagonal_identity. }
  destruct (balanced_energy _ Hb) as (Hsum & _ & _).
  rewrite <- HN in Hl, Hn.
  rewrite !(simulate_rt_ready _ clean tb Hst HE HW Hl Hn). cbv zeta. rewrite HN.
  rewrite (diagonal_reflection _ Hd) in *.
  rewrite Cabs_0. split.
  - do 2 f_equal; ring.
  - eexists. split; [reflexivity|].
    unfold Cnorm2 in Hsum at 1. simpl in Hsum. lra.
Qed.

Lemma simulate_rt_matched_any_length_witness :
  exists fresh,
    __init__ 30 15e-2 5e-2 2 2 1 1 = Ret fresh /\
    simulate_rt true
      (calculatePropagationMatrices 3 (snd (calculateTransferMatrices 2 1 (run [] fresh))))
    = Ret (Powers 0 1).
Proof.
  pose proof (init_Ret 30 15e-2 5e-2 2 2 1 1 ltac:(lra) ltac:(lra)) as H.
  eexists. split; [exact H|].
  apply (simulate_rt_matched_any_length 30 15e-2 5e-2 2 1 3 _ [] H); lra || lia.
Defined.

(** Transfer matrices compose by multiplying their impedance ratios. *)
Lemma matmul_impedance_form (a b : R) :
  matmul (astype_complex (impedance_form a)) (astype_complex (impedance_form b))
  = astype_complex (impedance_form (a * b)).
Proof. apply array_eq; apply C_eq; simpl; nra. Qed.

Lemma propagation_form_static (epsr mur d : R) :
  propagation_form (wavenumber 0 epsr mur) d = astype_complex identity2.
Proof.
  unfold propagation_form, wavenumber.
  replace (0 * sqrt (Eps0 * Mu0 * epsr * mur) * d) with 0 by ring.
  rewrite Ropp_0. unfold Cexp; simpl. rewrite exp_0, cos_0, sin_0.
  apply array_eq; apply C_eq; simpl; ring.
Qed.

Lemma cascade_steps_static (z1 z2 zenv : R) (n : Z) (e1 m1 dd1 e2 m2 dd2 : R) :
  z1 <> 0 -> z2 <> 0 ->
  forall (m : nat) (f : Z) (c : R),
    (f = 0 \/ f = 1)%Z ->
    fst (cascade_steps m
           (tables_of z1 z2 zenv n (wavenumber 0 e1 m1) dd1 (wavenumber 0 e2 m2) dd2)
           (astype_complex (impedance_form c)) f)
    = astype_complex (impedance_form (c * crossing_product z1 z2 m f)).
Proof.
  intros H1 H2. induction m as [|m IH]; intros f c Hf.
  - simpl. unfold crossing_product. simpl. rewrite Rmult_1_r. reflexivity.
  - cbn [cascade_steps].
    rewrite <- (crossing_product_succ z1 z2 m f H1 H2 Hf), <- Rmult_assoc.
    rewrite <- IH by (apply flip_bit, Hf).
    assert (Hstep :
      cascade_step
        (tables_of z1 z2 zenv n (wavenumber 0 e1 m1) dd1 (wavenumber 0 e2 m2) dd2)
        (astype_complex (impedance_form c)) f
      = astype_complex
          (impedance_form (c * (if (f =? 0)%Z then z1 / z2 else z2 / z1)))).
    { unfold cascade_step, tables_of. cbn [p_one p_two t_two2one t_one2two].
      rewrite !propagation_form_static, !matmul_identity_r.
      destruct Hf as [-> | ->]; simpl Z.eqb; cbv iota; apply matmul_impedance_form. }
    rewrite Hstep. reflexivity.
Qed.

(** X7.  Static limit.  At omega = 0 every stack with positive constants is
    transparent, whatever its length and materials: the cascade is the
    identity, r = 0, t = 1 and (R, T) = (0, 1). *)
Theorem simulate_rt_static_limit
    (n : Z) (dd1 dd2 e1 e2 m1 m2 : R) (fresh : model) (cs : list call) (e mu : R) :
  __init__ n dd1 dd2 e1 e2 m1 m2 = Ret fresh ->
  0 < e1 -> 0 < e2 -> 0 < m1 -> 0 < m2 -> 0 < e -> 0 < mu -> (1 <= n)%Z ->
  let self := calculatePropagationMatrices 0
                (snd (calculateTransferMatrices e mu (run cs fresh))) in
  simulate_rt true self = Ret (Powers 0 1) /\
  simulate_rt false self = Ret (Amplitudes (mkC 0 0) (mkC 1 0)).
Proof.
  intros Hi He1 He2 Hm1 Hm2 He Hmu Hn self.
  assert (He0 : e <> 0) by lra.
  pose proof (impedance_pos e1 m1 He1 Hm1) as Hz1.
  pose proof (impedance_pos e2 m2 He2 Hm2) as Hz2.
  pose proof (impedance_pos e mu He Hmu) as Hz.
  destruct (reset_after_setters n dd1 dd2 e1 e2 m1 m2 fresh cs e mu 0 true Hi He0)
    as [Heq _].
  unfold self. rewrite Heq.
  destruct (clean_stored n dd1 dd2 e1 e2 m1 m2 fresh e mu 0 Hi He0)
    as (Hst & HE & HW & Hl & HN).
  set (clean := calculatePropagationMatrices 0 (snd (calculateTransferMatrices e mu fresh)))
    in *.
  set (tb := tables_of _ _ _ _ _ _ _ _) in Hst.
  assert (Hc : cascade tb (parity_last n) n = astype_complex identity2).
  { unfold cascade, tb.
    cbn [t_last2env p_one t_env2one tables_of].
    rewrite cascade_steps_static by (try apply parity_flag_bit; lra).
    rewrite propagation_form_static, matmul_identity_r, matmul_impedance_form.
    rewrite <- impedance_form_1. do 2 f_equal.
    unfold crossing_product, parity_last. rewrite even_steps by exact Hn.
    destruct (Z.even n); simpl; field; lra. }
  rewrite <- HN in Hl, Hn.
  rewrite !(simulate_rt_ready _ clean tb Hst HE HW Hl Hn). cbv zeta. rewrite HN, Hc.
  assert (Hr : reflection (astype_complex identity2) = mkC 0 0)
    by apply reflection_diagonal.
  assert (Ht : transmission (astype_complex identity2) = mkC 1 0)
    by apply transmission_diagonal.
  rewrite Hr, Ht, Cabs_0. split; [do 2 f_equal; ring | reflexivity].
Qed.

Lemma simulate_rt_static_limit_witness :
  let self := calculatePropagationMatrices 0
                (snd (calculateTransferMatrices 1 1 (run (main_calls 2) crystal))) in
  simulate_rt true self = Ret (Powers 0 1) /\
  simulate_rt false self = Ret (Amplitudes (mkC 0 0) (mkC 1 0)).
Proof.
  apply (simulate_rt_static_limit 30 15e-2 5e-2 2 4 1 1 crystal (main_calls 2) 1 1
           crystal_init); lra || lia.
Defined.

(** ** Every way simulate_rt can end *)

Lemma env_call_ok_dec (c : call) : {env_call_ok c} + {~ env_call_ok c}.
Proof.
  destruct c as [e mu | w | RT]; simpl.
  - destruct (Req_dec_T e 0) as [He | He]; [right; intros H; exact (H He) | left; exact He].
  - right; intros H; exact H.
  - right; intros H; exact H.
Qed.

(** Calls of calculateTransferMatrices that all raise leave the transfer
    table and [last] as they were. *)
Lemma run_without_env cs :
  forall self, ~ Exists env_call_ok cs ->
  transferMatrices (run cs self) = transferMatrices self /\
  last (run cs self) = last self.
Proof.
  induction cs as [|c cs IH]; intros self H; [split; reflexivity|].
  rewrite run_cons.
  assert (Hc : ~ env_call_ok c) by (intros Hc; apply H, Exists_cons_hd, Hc).
  assert (Hcs : ~ Exists env_call_ok cs) by (intros Hcs; apply H, Exists_cons_tl, Hcs).
  destruct (IH (snd (invoke c self)) Hcs) as [-> ->].
  destruct c as [e mu | w | RT].
  - rewrite invoke_env. simpl in Hc.
    destruct (Req_dec_T e 0) as [-> | He]; [|contradiction].
    destruct (calculateTransferMatrices_raise_frame mu self) as (_ & -> & ->).
    split; reflexivity.
  - split; reflexivity.
  - split; reflexivity.
Qed.

Lemma simulate_rt_guard RT self :
  is_None (envEpsr self) || is_None (omega self) = true ->
  simulate_rt RT self = Raise (ValueError "Params not initialized!").
Proof. intros H. unfold simulate_rt. rewrite H. reflexivity. Qed.

(** simulate_rt on a configured object whose layer count is not positive:
    the loop body never runs. *)
Lemma simulate_rt_short RT self tb :
  stored self tb ->
  is_None (envEpsr self) = false ->
  is_None (omega self) = false ->
  last self = Some (parity_last (N self)) ->
  (N self <= 0)%Z ->
  simulate_rt RT self =
    if Z.even (N self) then Raise AssertionError
    else
      let Q := cascade tb 1 1 in
      if RT
      then Ret (Powers (Cabs (reflection Q) ^ 2) (1 - Cabs (reflection Q) ^ 2))
      else Ret (Amplitudes (reflection Q) (transmission Q)).
Proof.
  intros Hst He Hw Hl Hn.
  pose proof Hst as (He1 & _ & _ & Hle & Hp1 & _).
  unfold simulate_rt. rewrite He, Hw, Hl. simpl orb. cbv iota.
  unfold getitem at 1. rewrite Hle. simpl bind at 1.
  simpl sub_last. simpl bind at 1.
  replace (Z.to_nat (N self - 1)) with 0%nat by lia.
  cbn [for_layers]. simpl bind at 1. cbn [fst snd].
  unfold parity_last. destruct (Z.even (N self)); simpl Z.eqb; cbv iota.
  - reflexivity.
  - unfold getitem. rewrite Hp1, He1. simpl bind.
    unfold cascade. simpl. destruct RT; reflexivity.
Qed.

(** X8.  Layer counts that are not positive.  The constructor accepts them; once
    both setters have been called, simulate_rt raises AssertionError for
    every even N <= 0, and for every odd N <= 0 it silently returns the
    result of the one-layer cascade last2env . P_one . env2one. *)
Theorem simulate_rt_nonpositive_layers
    (n : Z) (dd1 dd2 e1 e2 m1 m2 : R) (fresh : model) (cs : list call) (RT : bool) :
  __init__ n dd1 dd2 e1 e2 m1 m2 = Ret fresh ->
  (n <= 0)%Z ->
  Exists env_call_ok cs ->
  existsb is_freq_call cs = true ->
  let self := run cs fresh in
  exists tb, stored self tb /\
    simulate_rt RT self =
      if Z.even n then Raise AssertionError
      else power_if RT (Amplitudes (reflection (cascade tb 1 1))
                          (transmission (cascade tb 1 1))).
Proof.
  intros Hi Hn He Hf self.
  destruct (run_ready n dd1 dd2 e1 e2 m1 m2 fresh cs Hi He Hf)
    as (HE & HW & HN & Hl & tb & Hst).
  fold self in HE, HW, HN, Hl, Hst.
  exists tb. split; [exact Hst|].
  rewrite <- HN in Hl, Hn.
  rewrite (simulate_rt_short RT self tb Hst HE HW Hl Hn). rewrite HN.
  destruct (Z.even n); [reflexivity|]. destruct RT; reflexivity.
Qed.

Lemma simulate_rt_nonpositive_layers_witness :
  exists fresh tb,
    __init__ (-3) 15e-2 5e-2 2 4 1 1 = Ret fresh /\
    stored (run (main_calls 2) fresh) tb /\
    simulate_rt false (run (main_calls 2) fresh)
    = Ret (Amplitudes (reflection (cascade tb 1 1)) (transmission (cascade tb 1 1))).
Proof.
  pose proof (init_Ret (-3) 15e-2 5e-2 2 4 1 1 ltac:(lra) ltac:(lra)) as H.
  destruct (simulate_rt_nonpositive_layers (-3) 15e-2 5e-2 2 4 1 1 _ (main_calls 2) false H)
    as (tb & Hst & Hs).
  - lia.
  - apply main_calls_env.
  - reflexivity.
  - eexists _, tb. split; [exact H|]. split; [exact Hst | exact Hs].
Defined.

(** X9.  The exceptions of simulate_rt.  On an object reached from the
    constructor by any calls, an exception of simulate_rt is one of three:
    ValueError when a setter was never called; KeyError 'last2env' when both
    were called but every calculateTransferMatrices raised; AssertionError
    when the tables are built and N is even and not positive.  It never
    raises TypeError, ZeroDivisionError or another KeyError. *)
Theorem simulate_rt_exceptions
    (n : Z) (dd1 dd2 e1 e2 m1 m2 : R) (fresh : model) (cs : list call) (RT : bool)
    (e : exn) :
  __init__ n dd1 dd2 e1 e2 m1 m2 = Ret fresh ->
  simulate_rt RT (run cs fresh) = Raise e ->
  let both := existsb is_env_call cs && existsb is_freq_call cs in
  (e = ValueError "Params not initialized!" /\ both = false) \/
  (e = KeyError "last2env" /\ both = true /\ ~ Exists env_call_ok cs) \/
  (e = AssertionError /\ Exists env_call_ok cs /\ existsb is_freq_call cs = true /\
   (n <= 0)%Z /\ Z.even n = true).
Proof.
  intros Hi Hraise both.
  set (self := run cs fresh) in *.
  assert (Hc : is_None (envEpsr self) || is_None (omega self) = negb both).
  { unfold self, both. rewrite run_envEpsr_None, run_omega_None.
    pose proof Hi as Hi'. apply init_inv in Hi' as (_ & _ & ->). simpl.
    destruct (existsb is_env_call cs), (existsb is_freq_call cs); reflexivity. }
  destruct both eqn:Hb.
  2:{ left. rewrite simulate_rt_guard in Hraise by (rewrite Hc; reflexivity).
      injection Hraise as <-. split; reflexivity. }
  right. simpl in Hc. apply orb_false_iff in Hc as [HE HW].
  unfold both in Hb. apply andb_true_iff in Hb as [Hbe Hbf].
  destruct (List.Exists_dec env_call_ok cs env_call_ok_dec) as [Hok | Hno].
  - right.
    destruct (run_ready n dd1 dd2 e1 e2 m1 m2 fresh cs Hi Hok Hbf)
      as (_ & _ & HN & Hl & tb & Hst).
    fold self in HN, Hl, Hst. rewrite <- HN in Hl.
    destruct (Z_le_gt_dec n 0) as [Hn | Hn].
    + rewrite <- HN in Hn.
      rewrite (simulate_rt_short RT self tb Hst HE HW Hl Hn) in Hraise.
      rewrite HN in Hraise, Hn.
      destruct (Z.even n) eqn:Hev.
      * injection Hraise as <-. repeat split; assumption.
      * destruct RT; discriminate Hraise.
    + assert (Hn1 : (1 <= N self)%Z) by lia.
      rewrite (simulate_rt_ready RT self tb Hst HE HW Hl Hn1) in Hraise.
      destruct RT; discriminate Hraise.
  - left.
    destruct (run_without_env cs fresh Hno) as [Ht _].
    fold self in Ht. apply init_inv in Hi as (_ & _ & Hfresh).
    rewrite Hfresh in Ht. simpl in Ht.
    unfold simulate_rt in Hraise. rewrite HE, HW, Ht in Hraise.
    simpl in Hraise. injection Hraise as <-. repeat split. exact Hno.
Qed.

Lemma simulate_rt_exceptions_witness :
  let cs := [CalculateTransferMatrices 0 1; CalculatePropagationMatrices 2] in
  let both := existsb is_env_call cs && existsb is_freq_call cs in
  (KeyError "last2env" = ValueError "Params not initialized!" /\ both = false) \/
  (KeyError "last2env" = KeyError "last2env" /\ both = true /\ ~ Exists env_call_ok cs) \/
  (KeyError "last2env" = AssertionError /\ Exists env_call_ok cs /\
   existsb is_freq_call cs = true /\ (30 <= 0)%Z /\ Z.even 30 = true).
Proof.
  apply (simulate_rt_exceptions 30 15e-2 5e-2 2 4 1 1 crystal
           [CalculateTransferMatrices 0 1; CalculatePropagationMatrices 2] true
           (KeyError "last2env") crystal_init).
  unfold run, fold_left. rewrite invoke_freq, invoke_env.
  rewrite calculateTransferMatrices_Raise by reflexivity. reflexivity.
Defined.

(** ** A calculateTransferMatrices that raises *)

(** X10.  A call with envEpsr = 0 raises ZeroDivisionError after it has
    overwritten envEpsr and envMur: the transfer table and [last] stay those
    of the earlier environment, and on an object whose environment was set
    simulate_rt goes on returning exactly what it returned before. *)
Theorem failed_environment_call_is_stale (mu' : R) (self : model) (RT : bool) :
  is_None (envEpsr self) = false ->
  let bad := snd (calculateTransferMatrices 0 mu' self) in
  fst (calculateTransferMatrices 0 mu' self) = Raise ZeroDivisionError /\
  envEpsr bad = Some 0 /\ envMur bad = Some mu' /\
  transferMatrices bad = transferMatrices self /\ last bad = last self /\
  simulate_rt RT bad = simulate_rt RT self.
Proof.
  intros HE bad.
  destruct (calculateTransferMatrices_raise_frame mu' self) as (Hr & Ht & Hl).
  destruct (calculateTransferMatrices_frame 0 mu' self) as ((HN & _) & Hp & Ho & He & Hm).
  fold bad in Ht, Hl, HN, Hp, Ho, He, Hm.
  repeat split; try assumption.
  apply simulate_rt_ext; try assumption.
  - rewrite He, HE. reflexivity.
  - rewrite Ho. reflexivity.
Qed.

Lemma failed_environment_call_is_stale_witness :
  let self := snd (calculateTransferMatrices 1 1 crystal) in
  let bad := snd (calculateTransferMatrices 0 1 self) in
  fst (calculateTransferMatrices 0 1 self) = Raise ZeroDivisionError /\
  envEpsr bad = Some 0 /\ envMur bad = Some 1 /\
  transferMatrices bad = transferMatrices self /\ last bad = last self /\
  simulate_rt true bad = simulate_rt true self.
Proof.
  apply (failed_environment_call_is_stale 1 (snd (calculateTransferMatrices 1 1 crystal)) true).
  destruct (calculateTransferMatrices_frame 1 1 crystal) as (_ & _ & _ & -> & _).
  reflexivity.
Defined.

(** ** The two crossing matrices *)

(** X11.  On a stack with positive constants the stored "one2two" and "two2one"
    are inverse to each other: crossing an interface and crossing back is
    the identity. *)
Theorem crossing_matrices_inverse
    (n : Z) (dd1 dd2 e1 e2 m1 m2 : R) (fresh : model) (cs : list call) (e mu : R) :
  __init__ n dd1 dd2 e1 e2 m1 m2 = Ret fresh ->
  0 < e1 -> 0 < e2 -> 0 < m1 -> 0 < m2 -> e <> 0 ->
  let self := snd (calculateTransferMatrices e mu (run cs fresh)) in
  exists A B,
    transferMatrices self !! "one2two" = Some A /\
    transferMatrices self !! "two2one" = Some B /\
    matmul (astype_complex A) (astype_complex B) = astype_complex identity2 /\
    matmul (astype_complex B) (astype_complex A) = astype_complex identity2.
Proof.
  intros Hi He1 He2 Hm1 Hm2 He self.
  destruct (transfer_stored e mu (run cs fresh) He) as (_ & A2 & A3 & _).
  destruct (run_same_stack cs fresh) as (_ & _ & _ & _ & _ & _ & _ & HZ1 & HZ2).
  apply init_inv in Hi as (_ & _ & ->). simpl in HZ1, HZ2.
  pose proof (impedance_pos e1 m1 He1 Hm1) as Hz1.
  pose proof (impedance_pos e2 m2 He2 Hm2) as Hz2.
  eexists _, _. split; [exact A2|]. split; [exact A3|].
  rewrite !matmul_impedance_form, HZ1, HZ2, <- impedance_form_1.
  split; do 2 f_equal; field; split; lra.
Qed.

Lemma crossing_matrices_inverse_witness :
  let self := snd (calculateTransferMatrices 1 1 (run [] crystal)) in
  exists A B,
    transferMatrices self !! "one2two" = Some A /\
    transferMatrices self !! "two2one" = Some B /\
    matmul (astype_complex A) (astype_complex B) = astype_complex identity2 /\
    matmul (astype_complex B) (astype_complex A) = astype_complex identity2.
Proof.
  apply (crossing_matrices_inverse 30 15e-2 5e-2 2 4 1 1 crystal [] 1 1 crystal_init); lra.
Defined.

(** ** showParas *)

Lemma run_envMur_None cs self :
  is_None (envMur (run cs self))
  = is_None (envMur self) && negb (existsb is_env_call cs).
Proof.
  revert self. induction cs as [|c cs IH]; intros self.
  - simpl. rewrite andb_true_r. reflexivity.
  - rewrite run_cons, IH. destruct c.
    + rewrite invoke_env.
      destruct (calculateTransferMatrices_frame envEpsr0 envMur0 self)
        as (_ & _ & _ & _ & ->).
      simpl. rewrite andb_false_r. reflexivity.
    + reflexivity.
    + reflexivity.
Qed.

(** X13.  showParas needs the frequency and nothing else.  On an object reached
    from the constructor it raises TypeError exactly when
    calculatePropagationMatrices was never called, and by then it has
    printed its first three lines; otherwise it prints four lines and
    returns.  An environment that was never set is printed as None. *)
Theorem showParas_outcome
    (str_float format_2e : R -> string)
    (n : Z) (dd1 dd2 e1 e2 m1 m2 : R) (fresh : model) (cs : list call) :
  __init__ n dd1 dd2 e1 e2 m1 m2 = Ret fresh ->
  let self := run cs fresh in
  let printed := fst (showParas str_float format_2e self) in
  let ending := snd (showParas str_float format_2e self) in
  (existsb is_freq_call cs = false <-> ending = Raise TypeError) /\
  (existsb is_freq_call cs = true <-> ending = Ret tt) /\
  length printed = (if existsb is_freq_call cs then 4 else 3)%nat /\
  printed !! 0%nat = Some "Current Parameters:" /\
  (existsb is_env_call cs = false ->
   printed !! 1%nat = Some "Environment permittivity(EpsilonRelative): None" /\
   printed !! 2%nat = Some "Environment permeability(MuRelative): None").
Proof.
  intros Hi self printed ending.
  pose proof (run_omega_None cs fresh) as Hw.
  pose proof (run_envEpsr_None cs fresh) as He.
  pose proof (run_envMur_None cs fresh) as Hm.
  apply init_inv in Hi as (_ & _ & Hf).
  assert (H0 : omega fresh = None /\ envEpsr fresh = None /\ envMur fresh = None)
    by (rewrite Hf; repeat split).
  destruct H0 as (Hw0 & He0 & Hm0).
  rewrite Hw0 in Hw. rewrite He0 in He. rewrite Hm0 in Hm.
  simpl in Hw, He, Hm. fold self in Hw, He, Hm.
  unfold printed, ending, showParas.
  destruct (omega self) as [w|]; simpl in Hw;
    destruct (existsb is_freq_call cs); try discriminate Hw; simpl.
  - split; [split; intros H; discriminate H|].
    split; [split; reflexivity|]. split; [reflexivity|]. split; [reflexivity|].
    intros Hb. rewrite Hb in He, Hm. simpl in He, Hm.
    destruct (envEpsr self); [discriminate He|].
    destruct (envMur self); [discriminate Hm|]. split; reflexivity.
  - split; [split; reflexivity|].
    split; [split; intros H; discriminate H|]. split; [reflexivity|]. split; [reflexivity|].
    intros Hb. rewrite Hb in He, Hm. simpl in He, Hm.
    destruct (envEpsr self); [discriminate He|].
    destruct (envMur self); [discriminate Hm|]. split; reflexivity.
Qed.

Lemma showParas_outcome_witness :
  snd (showParas (fun _ => "1"%string) (fun _ => "1.00e+00"%string)
         (run [CalculateTransferMatrices 1 1] crystal))
  = Raise TypeError.
Proof.
  apply (showParas_outcome (fun _ => "1"%string) (fun _ => "1.00e+00"%string)
           30 15e-2 5e-2 2 4 1 1 crystal [CalculateTransferMatrices 1 1] crystal_init).
  reflexivity.
Defined.

(** ** The frequency sweep *)

(** A later frequency call overwrites an earlier one completely. *)
Lemma calculatePropagationMatrices_absorbs (w w0 : R) (self : model) :
  calculatePropagationMatrices w (calculatePropagationMatrices w0 self)
  = calculatePropagationMatrices w self.
Proof.
  apply model_eq; try reflexivity.
  - repeat split.
  - apply map_eq. intros k.
    destruct (decide (k = "one")) as [-> | H1].
    { rewrite !propagation_lookup_one. reflexivity. }
    destruct (decide (k = "two")) as [-> | H2].
    { rewrite !propagation_lookup_two. reflexivity. }
    rewrite !propagation_lookup_other by assumption. reflexivity.
Qed.

(** simulate_rt in power mode right after a frequency call, on an object
    whose transfer table is built. *)
Lemma simulate_after_frequency (w : R) (self : model) :
  env_built self -> is_None (envEpsr self) = false -> (1 <= N self)%Z ->
  exists R_ T_,
    simulate_rt true (calculatePropagationMatrices w self) = Ret (Powers R_ T_) /\
    R_ + T_ = 1.
Proof.
  intros (Hl & [a Ha] & [b Hb] & [c Hc] & [d Hd]) HE Hn.
  set (self' := calculatePropagationMatrices w self).
  set (tb := mkTables a b c d
               (propagation_form (wavenumber w (epsr1 self) (mur1 self)) (d1 self))
               (propagation_form (wavenumber w (epsr2 self) (mur2 self)) (d2 self))).
  assert (Hst : stored self' tb).
  { unfold stored, self'. rewrite propagation_lookup_one, propagation_lookup_two.
    repeat split; assumption. }
  rewrite (simulate_rt_ready true self' tb Hst HE eq_refl Hl Hn).
  eexists _, _. split; [reflexivity | ring].
Qed.

(** The loop of the sweep, from any accumulators. *)
Lemma sweep_from (omegas : list R) :
  forall (self : model) (Ts Rs : list scalar),
    env_built self -> is_None (envEpsr self) = false -> (1 <= N self)%Z ->
    exists (ps : list (R * R)),
      Forall2 (fun w p =>
                 simulate_rt true (calculatePropagationMatrices w self)
                 = Ret (Powers (fst p) (snd p)) /\ fst p + snd p = 1) omegas ps /\
      sweep omegas self Ts Rs
      = (Ret (Ts ++ map (fun p => Float (snd p)) ps, Rs ++ map (fun p => Float (fst p)) ps),
         fold_left (fun s w => calculatePropagationMatrices w s) omegas self).
Proof.
  induction omegas as [|w rest IH]; intros self Ts Rs Hb HE Hn.
  - exists []. split; [constructor|]. simpl. rewrite !app_nil_r. reflexivity.
  - destruct (simulate_after_frequency w self Hb HE Hn) as (R_ & T_ & Hs & Hsum).
    destruct (IH (calculatePropagationMatrices w self) (Ts ++ [Float T_]) (Rs ++ [Float R_])
                Hb HE Hn) as (ps & Hall & Hsw).
    exists ((R_, T_) :: ps). split.
    + constructor; [split; assumption|].
      eapply Forall2_impl; [exact Hall|].
      intros w' p. cbv beta. rewrite calculatePropagationMatrices_absorbs. tauto.
    + cbn [sweep fold_left]. rewrite Hs. cbn [unpack fst snd].
      rewrite Hsw. cbn [map fst snd]. rewrite <- !app_assoc. reflexivity.
Qed.

(** X14.  The sweep under [__main__].  On an object with N >= 1 layers whose
    environment has been set, the sweep over any list of frequencies ends
    without exception; Ts and Rs get one real entry per frequency, in order,
    with R + T = 1; the entry for a frequency is what simulate_rt gives for
    that frequency alone on the object the sweep started from, wherever the
    frequency stands in the list; and the object ends with the last
    frequency set. *)
Theorem sweep_results
    (n : Z) (dd1 dd2 e1 e2 m1 m2 : R) (fresh : model) (cs : list call) (omegas : list R) :
  __init__ n dd1 dd2 e1 e2 m1 m2 = Ret fresh ->
  (1 <= n)%Z ->
  Exists env_call_ok cs ->
  let self := run cs fresh in
  exists (Ts Rs : list scalar) (final : model),
    sweep omegas self [] [] = (Ret (Ts, Rs), final) /\
    length Ts = length omegas /\ length Rs = length omegas /\
    (forall (i : nat) (w : R), omegas !! i = Some w ->
       exists R_ T_,
         Rs !! i = Some (Float R_) /\ Ts !! i = Some (Float T_) /\
         R_ + T_ = 1 /\
         simulate_rt true (calculatePropagationMatrices w self) = Ret (Powers R_ T_)) /\
    final = fold_left (fun s w => calculatePropagationMatrices w s) omegas self.
Proof.
  intros Hi Hn He self.
  assert (Hb : env_built self) by (apply run_env_built, He).
  assert (HE : is_None (envEpsr self) = false).
  { unfold self. rewrite run_envEpsr_None, env_call_ok_is_env_call by exact He.
    apply andb_false_r. }
  assert (HN : (1 <= N self)%Z).
  { unfold self. destruct (run_same_stack cs fresh) as (-> & _).
    apply init_inv in Hi as (_ & _ & ->). exact Hn. }
  destruct (sweep_from omegas self [] [] Hb HE HN) as (ps & Hall & Hsw).
  eexists _, _, _. split; [exact Hsw|].
  pose proof (Forall2_length _ _ _ Hall) as Hlen.
  simpl. rewrite !length_map.
  split; [symmetry; exact Hlen|]. split; [symmetry; exact Hlen|]. split; [|reflexivity].
  intros i w Hw.
  destruct (Forall2_lookup_l _ _ _ _ _ Hall Hw) as (p & Hp & Hs & Hsum).
  exists (fst p), (snd p). rewrite !list_lookup_fmap, Hp. simpl.
  repeat split; assumption.
Qed.

Lemma sweep_results_witness :
  let self := run [CalculateTransferMatrices 1 1] crystal in
  exists (Ts Rs : list scalar) (final : model),
    sweep [2; 3] self [] [] = (Ret (Ts, Rs), final) /\
    length Ts = 2%nat /\ length Rs = 2%nat.
Proof.
  destruct (sweep_results 30 15e-2 5e-2 2 4 1 1 crystal [CalculateTransferMatrices 1 1]
              [2; 3] crystal_init) as (Ts & Rs & final & Hs & HT & HR & _).
  - lia.
  - apply Exists_cons_hd. simpl. lra.
  - exists Ts, Rs, final. split; [exact Hs|]. split; assumption.
Defined.

End Extra.
